(** * KoStore download worker: plugin-root locator and install pipeline

    Shallow embedding of [src/workers/download_worker.py]:
    - [find_plugin_root], the locator that searches an extracted archive
      for the directory holding [main.lua] and [_meta.lua];
    - [DownloadWorker.run], the install pipeline with its
      [try / except Exception / finally] structure, its two signals
      ([progress], [finished]) and its file-system effects.

    The file system is a tree of named entries; every call into the
    operating system, the archive reader, the API client or the HTTP
    library is a primitive that either performs its effect on the tree
    or raises a Python [Exception].  Results of the outside world (API
    answers, archive members, the name chosen by [tempfile.mkdtemp],
    faults such as a full disk) are read from an explicit [world]
    record, so that [run] is an executable function. *)

From Stdlib Require Import List String Ascii Bool Arith Lia DecimalString.
Import ListNotations.
Open Scope string_scope.
Set Warnings "-register-all".

(* ================================================================== *)
(** * Part I: definitions *)
(* ================================================================== *)

(** ** Strings *)

(** [s.endswith(suffix)] *)
Fixpoint endswith (s suffix : string) : bool :=
  if String.eqb s suffix then true
  else match s with
       | EmptyString => false
       | String _ s' => endswith s' suffix
       end.

(** [name in names] for a list of file names (exact, case-sensitive). *)
Definition name_in (name : string) (names : list string) : bool :=
  existsb (String.eqb name) names.

(** [str(n)] for a natural number, as used by f-strings. *)
Definition str_of_nat (n : nat) : string :=
  NilEmpty.string_of_uint (Nat.to_uint n).

(** ** File-system trees *)

(** A directory lists its entries in the order [os.scandir] reports
    them; a regular file carries its bytes.  There are no symbolic
    links: [zipfile] extracts none. *)
Inductive node : Type :=
| File (data : string)
| Dir (entries : list (string * node)).

(** A [pathlib.Path], as the list of its components below the root. *)
Definition path := list string.
Bind Scope list_scope with path.

(** [p / name] *)
Definition pjoin (p : path) (name : string) : path := (p ++ [name])%list.

(** [p.name]: the final component. *)
Definition pname (p : path) : string := last p "".

(** [str(p)] *)
Definition path_str (p : path) : string :=
  match p with
  | [] => "/"
  | _ => String.concat "" (map (fun c => "/" ++ c) p)
  end.

Definition is_dir (n : node) : bool :=
  match n with Dir _ => true | File _ => false end.

Fixpoint assoc (name : string) (es : list (string * node)) : option node :=
  match es with
  | [] => None
  | (k, v) :: es' => if String.eqb k name then Some v else assoc name es'
  end.

(** Replace the entry called [name] in place. *)
Fixpoint set_entry (name : string) (v : node) (es : list (string * node))
  : list (string * node) :=
  match es with
  | [] => []
  | (k, w) :: es' =>
      if String.eqb k name then (k, v) :: es'
      else (k, w) :: set_entry name v es'
  end.

Definition del_entry (name : string) (es : list (string * node))
  : list (string * node) :=
  filter (fun e => negb (String.eqb (fst e) name)) es.

(** The node a path resolves to, if any. *)
Fixpoint lookup (n : node) (p : path) : option node :=
  match p with
  | [] => Some n
  | c :: p' =>
      match n with
      | Dir es => match assoc c es with
                  | Some m => lookup m p'
                  | None => None
                  end
      | File _ => None
      end
  end.

(** [p.exists()] *)
Definition exists_ (fs : node) (p : path) : bool :=
  match lookup fs p with Some _ => true | None => false end.

(** Bind [p] to [new]: the parent must be an existing directory; an
    existing entry is replaced where it stands, a new one is listed
    last. *)
Fixpoint put (p : path) (new : node) (n : node) : option node :=
  match p with
  | [] => Some new
  | c :: p' =>
      match n with
      | Dir es =>
          match assoc c es with
          | Some m =>
              match put p' new m with
              | Some m' => Some (Dir (set_entry c m' es))
              | None => None
              end
          | None =>
              match p' with
              | [] => Some (Dir (es ++ [(c, new)])%list)
              | _ :: _ => None
              end
          end
      | File _ => None
      end
  end.

(** Unlink the entry at [p] (with everything below it). *)
Fixpoint remove (p : path) (n : node) : option node :=
  match p with
  | [] => None
  | c :: p' =>
      match n with
      | Dir es =>
          match assoc c es with
          | Some m =>
              match p' with
              | [] => Some (Dir (del_entry c es))
              | _ :: _ =>
                  match remove p' m with
                  | Some m' => Some (Dir (set_entry c m' es))
                  | None => None
                  end
              end
          | None => None
          end
      | File _ => None
      end
  end.

(** Create every missing directory along [p]; [None] when a component
    is a regular file. *)
Fixpoint mkdirs (p : path) (n : node) : option node :=
  match n with
  | File _ => None
  | Dir es =>
      match p with
      | [] => Some n
      | c :: p' =>
          match assoc c es with
          | Some m =>
              match mkdirs p' m with
              | Some m' => Some (Dir (set_entry c m' es))
              | None => None
              end
          | None =>
              match mkdirs p' (Dir []) with
              | Some m' => Some (Dir (es ++ [(c, m')])%list)
              | None => None
              end
          end
      end
  end.

(** [a] is [b] or an ancestor of [b]. *)
Fixpoint is_prefix (a b : path) : bool :=
  match a, b with
  | [], _ => true
  | x :: a', y :: b' => String.eqb x y && is_prefix a' b'
  | _ :: _, [] => false
  end.

(** ** The plugin-root locator *)

(** The [dirs] and [files] lists that [os.walk] yields for a directory:
    the names of its sub-directories, and of everything else. *)
Definition dir_names (es : list (string * node)) : list string :=
  map fst (filter (fun e => is_dir (snd e)) es).

Definition file_names (es : list (string * node)) : list string :=
  map fst (filter (fun e => negb (is_dir (snd e))) es).

(** [os.walk(top)], top-down: a directory is reported before its
    sub-directories, which are visited in listing order.  A [top] that
    is not a directory yields nothing. *)
Fixpoint walk (root : path) (n : node)
  : list (path * list string * list string) :=
  match n with
  | File _ => []
  | Dir es =>
      (root, dir_names es, file_names es) ::
      (fix walk_entries (l : list (string * node)) :=
         match l with
         | [] => []
         | (name, child) :: l' =>
             (walk (pjoin root name) child ++ walk_entries l')%list
         end) es
  end.

Definition os_walk (fs : node) (top : path)
  : list (path * list string * list string) :=
  match lookup fs top with
  | Some n => walk top n
  | None => []
  end.

(** The test of the loop body: ["main.lua" in files and "_meta.lua" in files]. *)
Definition has_marker_files (t : path * list string * list string) : bool :=
  name_in "main.lua" (snd t) && name_in "_meta.lua" (snd t).

(** [find_plugin_root(base)] (the calls to [logger] leave no mark on
    the result and are not modelled here). *)
Definition find_plugin_root (fs : node) (base : path) : option path :=
  if exists_ fs (pjoin base "main.lua") && exists_ fs (pjoin base "_meta.lua")
  then Some base
  else match find has_marker_files (os_walk fs base) with
       | Some (root, _, _) => Some root
       | None => None
       end.

(** ** Install name *)

(** Lines 96-98: [plugin_name = plugin_dir.name], with [".koplugin"]
    appended unless the name already ends with it. *)
Definition plugin_name (dirname : string) : string :=
  if negb (endswith dirname ".koplugin") then dirname ++ ".koplugin"
  else dirname.

(** ** Exceptions *)

(** A raised [Exception]: its class name and [str(e)]. *)
Inductive exn : Type := Exn (cls : string) (msg : string).

Definition exn_str (e : exn) : string :=
  match e with Exn _ msg => msg end.

Inductive res (A : Type) : Type :=
| Ok (a : A)
| Raise (e : exn).
Arguments Ok {A} a.
Arguments Raise {A} e.

Definition os_error (cls errno : string) (p : path) : exn :=
  Exn cls (errno ++ ": '" ++ path_str p ++ "'").

Definition FileNotFoundError := os_error "FileNotFoundError" "[Errno 2] No such file or directory".
Definition FileExistsError := os_error "FileExistsError" "[Errno 17] File exists".
Definition NotADirectoryError := os_error "NotADirectoryError" "[Errno 20] Not a directory".
Definition IsADirectoryError := os_error "IsADirectoryError" "[Errno 21] Is a directory".
Definition BusyError := os_error "OSError" "[Errno 16] Device or resource busy".
Definition RecursionError : exn :=
  Exn "RecursionError" "maximum recursion depth exceeded".

(** ** Operating-system calls on the tree

    Each call maps the tree to an outcome and the tree it leaves. *)

Definition sys (A : Type) := node -> res A * node.

(** Does resolving [p] run into a regular file before its end? *)
Fixpoint hits_file (n : node) (p : path) : bool :=
  match p with
  | [] => false
  | c :: p' =>
      match n with
      | File _ => true
      | Dir es => match assoc c es with
                  | Some m => hits_file m p'
                  | None => false
                  end
      end
  end.

Definition missing_error (fs : node) (p : path) : exn :=
  if hits_file fs p then NotADirectoryError p else FileNotFoundError p.

(** [os.mkdir(p)] *)
Definition os_mkdir (p : path) : sys unit := fun fs =>
  match lookup fs p with
  | Some _ => (Raise (FileExistsError p), fs)
  | None =>
      match put p (Dir []) fs with
      | Some fs' => (Ok tt, fs')
      | None => (Raise (missing_error fs p), fs)
      end
  end.

(** [p.mkdir(exist_ok=True)]: an existing directory is accepted,
    parents are not created. *)
Definition path_mkdir_exist_ok (p : path) : sys unit := fun fs =>
  match lookup fs p with
  | Some (Dir _) => (Ok tt, fs)
  | _ => os_mkdir p fs
  end.

(** [open(p, "w")]: create or truncate. *)
Definition open_w (p : path) : sys unit := fun fs =>
  match lookup fs p with
  | Some (Dir _) => (Raise (IsADirectoryError p), fs)
  | _ =>
      match put p (File "") fs with
      | Some fs' => (Ok tt, fs')
      | None => (Raise (missing_error fs p), fs)
      end
  end.

(** [f.write(data)] on the file opened at [p]. *)
Definition write (p : path) (data : string) : sys unit := fun fs =>
  match lookup fs p with
  | Some (File _) =>
      match put p (File data) fs with
      | Some fs' => (Ok tt, fs')
      | None => (Raise (missing_error fs p), fs)
      end
  | _ => (Raise (missing_error fs p), fs)
  end.

(** [shutil.rmtree(p)] *)
Definition rmtree (p : path) : sys unit := fun fs =>
  match lookup fs p with
  | Some (Dir _) =>
      match remove p fs with
      | Some fs' => (Ok tt, fs')
      | None => (Raise (BusyError p), fs)
      end
  | Some (File _) => (Raise (NotADirectoryError p), fs)
  | None => (Raise (FileNotFoundError p), fs)
  end.

(** The recursive copy that [shutil.copytree] performs on a listing. *)
Fixpoint copy_node (n : node) : node :=
  match n with
  | File data => File data
  | Dir es =>
      Dir ((fix copy_entries (l : list (string * node)) :=
              match l with
              | [] => []
              | (name, child) :: l' => (name, copy_node child) :: copy_entries l'
              end) es)
  end.

(** [b] minus its prefix [a]. *)
Fixpoint strip_prefix (a b : path) : option path :=
  match a, b with
  | [], _ => Some b
  | x :: a', y :: b' => if String.eqb x y then strip_prefix a' b' else None
  | _ :: _, [] => None
  end.

(** A destination inside the source, below one of the source's own
    entries, makes the copy descend into what it is writing until the
    interpreter gives up. *)
Definition copies_into_itself (fs : node) (src dst : path) : bool :=
  match strip_prefix src dst with
  | Some (c :: _) => exists_ fs (pjoin src c)
  | _ => false
  end.

(** [shutil.copytree(src, dst)]: [dst] must not exist; it is created
    with its missing parents ([os.makedirs]) and receives a copy of
    everything below [src]. *)
Definition copytree (src dst : path) : sys unit := fun fs =>
  match lookup fs src with
  | Some (Dir es) =>
      if exists_ fs dst then (Raise (FileExistsError dst), fs)
      else
        match mkdirs dst fs with
        | None => (Raise (NotADirectoryError dst), fs)
        | Some fs1 =>
            if copies_into_itself fs src dst then (Raise RecursionError, fs1)
            else
              match put dst (copy_node (Dir es)) fs1 with
              | Some fs2 => (Ok tt, fs2)
              | None => (Raise (FileNotFoundError dst), fs1)
              end
        end
  | Some (File _) => (Raise (NotADirectoryError src), fs)
  | None => (Raise (FileNotFoundError src), fs)
  end.

(** ** Names joined to a path *)

(** [name.split("/")] *)
Fixpoint split_slash (s : string) : list string :=
  match s with
  | EmptyString => [EmptyString]
  | String c s' =>
      if Ascii.eqb c "/" then EmptyString :: split_slash s'
      else match split_slash s' with
           | h :: t => String c h :: t
           | [] => [String c EmptyString]
           end
  end.

(** The components [pathlib] keeps of a name: empty ones and ["."] are
    dropped, [".."] stays. *)
Definition name_parts (name : string) : list string :=
  filter (fun c => negb (String.eqb c "") && negb (String.eqb c "."))
         (split_slash name).

(** A name that starts with a slash replaces the path it is joined to. *)
Definition is_absolute (name : string) : bool :=
  match name with
  | String c _ => Ascii.eqb c "/"
  | EmptyString => false
  end.

(** The path the operating system reaches from the directory [cur]
    along [parts]: every component before the last must be a
    directory, [".."] steps to the parent; the last component need not
    exist.  An error names [joined], the path as it was given. *)
Fixpoint resolve (fs : node) (joined cur : path) (parts : list string)
  : res path :=
  match parts with
  | [] => Ok cur
  | c :: rest =>
      if String.eqb c ".." then
        match lookup fs cur with
        | Some (Dir _) => resolve fs joined (removelast cur) rest
        | Some (File _) => Raise (NotADirectoryError joined)
        | None => Raise (FileNotFoundError joined)
        end
      else
        match rest with
        | [] => Ok (pjoin cur c)
        | _ :: _ =>
            match lookup fs (pjoin cur c) with
            | Some (Dir _) => resolve fs joined (pjoin cur c) rest
            | Some (File _) => Raise (NotADirectoryError joined)
            | None => Raise (FileNotFoundError joined)
            end
        end
  end.

(** [open(base / name, "w")] for a name given as a string: the file
    is created or truncated where the name resolves to, and that place
    is what the file object writes to. *)
Definition open_named (base : path) (name : string) : sys path := fun fs =>
  let from := if is_absolute name then [] else base in
  let joined := (from ++ name_parts name)%list in
  match resolve fs joined from (name_parts name) with
  | Ok p =>
      match lookup fs p with
      | Some (Dir _) => (Raise (IsADirectoryError joined), fs)
      | _ =>
          match put p (File "") fs with
          | Some fs' => (Ok p, fs')
          | None =>
              (Raise (if hits_file fs p then NotADirectoryError joined
                      else FileNotFoundError joined), fs)
          end
      end
  | Raise e => (Raise e, fs)
  end.

(** A name without a slash. *)
Fixpoint no_slash (s : string) : bool :=
  match s with
  | EmptyString => true
  | String c s' => negb (Ascii.eqb c "/") && no_slash s'
  end.

(** A name that is a single component: no slash, and none of [""],
    ["."], [".."]. *)
Definition plain_name (s : string) : bool :=
  no_slash s && negb (String.eqb s "") && negb (String.eqb s ".")
  && negb (String.eqb s "..").

(** ** Archives *)

(** A member of a ZIP archive, under its sanitised relative name. *)
Inductive member : Type :=
| MFile (arcname : path) (data : string)
| MDir (arcname : path).

(** [ZipFile._extract_member]: create the missing upper directories,
    then the directory or the file itself. *)
Definition extract_member (dest : path) (m : member) : sys unit := fun fs =>
  let target := match m with MFile a _ => dest ++ a | MDir a => dest ++ a end%list in
  let upperdirs := removelast target in
  let made :=
    if exists_ fs upperdirs then Some fs else mkdirs upperdirs fs in
  match made with
  | None => (Raise (FileExistsError upperdirs), fs)
  | Some fs1 =>
      match m with
      | MDir _ =>
          match lookup fs1 target with
          | Some (Dir _) => (Ok tt, fs1)
          | _ => os_mkdir target fs1
          end
      | MFile _ data =>
          match open_w target fs1 with
          | (Ok _, fs2) => write target data fs2
          | (Raise e, fs2) => (Raise e, fs2)
          end
      end
  end.

(** [extractall]: members in archive order, stopping at the first
    error; what was extracted before stays. *)
Fixpoint extract_members (dest : path) (ms : list member) : sys unit := fun fs =>
  match ms with
  | [] => (Ok tt, fs)
  | m :: ms' =>
      match extract_member dest m fs with
      | (Ok _, fs1) => extract_members dest ms' fs1
      | (Raise e, fs1) => (Raise e, fs1)
      end
  end.

(** ** The outside world and the worker *)

(** One entry of [api.get_patch_files]: the keys ["name"] and
    ["download_url"] of the dictionary. *)
Record patch : Type := { patch_name : string; download_url : string }.

(** Every call that leaves the interpreter. *)
Inductive op : Type :=
| DownloadRepositoryZip   (* api.download_repository_zip(owner, repo) *)
| Mkdtemp                 (* tempfile.mkdtemp(prefix="koreader_store_") *)
| OpenZip                 (* open(zip_path, "wb") *)
| WriteZip                (* f.write(zip_content) *)
| ExtractAll              (* ZipFile(zip_path).extractall(temp_dir) *)
| FindPluginRoot          (* find_plugin_root(temp_dir) *)
| RmtreeTarget            (* shutil.rmtree(target) *)
| Copytree                (* shutil.copytree(plugin_dir, target) *)
| GetPatchFiles           (* api.get_patch_files(owner, repo) *)
| MkdirPatches            (* patch_dir.mkdir(exist_ok=True) *)
| RequestsGet (i : nat)   (* requests.get(patch["download_url"], timeout=10) *)
| OpenPatch (i : nat)     (* open(patch_file, "w", encoding="utf-8") *)
| WritePatch (i : nat)    (* f.write(response.text) *)
| RmtreeTemp.             (* shutil.rmtree(temp_dir) in the finally block *)

(** What the collaborators answer when they answer, and which calls
    raise instead ([fault]: a refused connection, a timeout, a full
    disk, a missing permission).  File contents are byte strings; text
    written with [encoding="utf-8"] stands for its encoded bytes. *)
Record world : Type := {
  download_repository_zip : string -> string -> option string;
  get_patch_files : string -> string -> option (list patch);
  response_text : string -> string;
  zip_members : string -> list member * option exn;
  gettempdir : path;
  random_name : string;
  fault : op -> option exn
}.

(** [item_data]: the repository description handed over by the store,
    with the two keys that [run] reads (a dictionary without them is
    not an [item]). *)
Record owner_data : Type := { login : string }.
Record item : Type := { owner : owner_data; name : string }.

(** The attributes set by [DownloadWorker.__init__]. *)
Record worker : Type := {
  item_data : item;
  install_path : path;
  item_type : string;
  is_update : bool
}.

(** ** Observable behaviour *)

Inductive level : Type := INFO | WARNING | ERROR.

Inductive event : Type :=
| Progress (message : string)                  (* self.progress.emit *)
| Finished (success : bool) (message : string) (* self.finished.emit *)
| Log (lvl : level) (message : string)         (* logger.info/warning/error *)
| Call (o : op).

(** The state [run] works on: the file system, what has been emitted
    and called so far, and the local variable [temp_dir] ([None] while
    it is not bound, which is what ['temp_dir' in locals()] tests). *)
Record state : Type := {
  fs : node;
  trace : list event;
  temp_dir : option path
}.

Definition start (fs0 : node) : state :=
  {| fs := fs0; trace := []; temp_dir := None |}.

(** ** The monad of [run]: state and exceptions *)

Definition M (A : Type) := state -> res A * state.

Definition ret {A} (a : A) : M A := fun s => (Ok a, s).

Definition bind {A B} (m : M A) (k : A -> M B) : M B := fun s =>
  match m s with
  | (Ok a, s1) => k a s1
  | (Raise e, s1) => (Raise e, s1)
  end.

Notation "x <- m ;; k" := (bind m (fun x => k))
  (at level 61, m at next level, right associativity).
Notation "m ;; k" := (bind m (fun _ => k))
  (at level 61, right associativity).

Definition emit (ev : event) : M unit := fun s =>
  (Ok tt, {| fs := fs s; trace := trace s ++ [ev]; temp_dir := temp_dir s |}).

Definition bind_temp_dir (p : path) : M unit := fun s =>
  (Ok tt, {| fs := fs s; trace := trace s; temp_dir := Some p |}).

Definition get_fs : M node := fun s => (Ok (fs s), s).

Definition get_temp_dir : M (option path) := fun s => (Ok (temp_dir s), s).

(** [try: body except Exception as e: handler(e)] *)
Definition try_except {A} (body : M A) (handler : exn -> M A) : M A := fun s =>
  match body s with
  | (Ok a, s1) => (Ok a, s1)
  | (Raise e, s1) => handler e s1
  end.

(** [try: ... finally: final]: [final] runs on every exit; an exception
    of [final] replaces the pending outcome. *)
Definition try_finally {A} (body : M A) (final : M unit) : M A := fun s =>
  match body s with
  | (r, s1) =>
      match final s1 with
      | (Ok _, s2) => (r, s2)
      | (Raise e, s2) => (Raise e, s2)
      end
  end.

Section Run.

Variable w : world.
Variable self : worker.

(** A call to the outside: recorded, then either the fault the world
    has in store for it or its effect on the tree. *)
Definition call {A} (o : op) (f : sys A) : M A := fun s =>
  let s1 := {| fs := fs s; trace := trace s ++ [Call o]; temp_dir := temp_dir s |} in
  match fault w o with
  | Some e => (Raise e, s1)
  | None =>
      match f (fs s) with
      | (r, fs') => (r, {| fs := fs'; trace := trace s1; temp_dir := temp_dir s1 |})
      end
  end.

(** A call that only reads. *)
Definition pure_call {A} (o : op) (f : node -> A) : M A :=
  call o (fun fs0 => (Ok (f fs0), fs0)).

(** [tempfile.mkdtemp(prefix="koreader_store_")]: a new directory in
    the temporary location, under the name the generator settles on. *)
Definition mkdtemp_path : path :=
  pjoin (gettempdir w) ("koreader_store_" ++ random_name w).

Definition mkdtemp : sys path := fun fs0 =>
  match os_mkdir mkdtemp_path fs0 with
  | (Ok _, fs1) => (Ok mkdtemp_path, fs1)
  | (Raise e, fs1) => (Raise e, fs1)
  end.

(** [with zipfile.ZipFile(zip_path, 'r') as zip_ref: zip_ref.extractall(temp_dir)] *)
Definition extractall (zip_path dest : path) : sys unit := fun fs0 =>
  match lookup fs0 zip_path with
  | Some (File data) =>
      match zip_members w data with
      | (ms, failure) =>
          match extract_members dest ms fs0 with
          | (Ok _, fs1) =>
              match failure with
              | Some e => (Raise e, fs1)
              | None => (Ok tt, fs1)
              end
          | (Raise e, fs1) => (Raise e, fs1)
          end
      end
  | Some (Dir _) => (Raise (IsADirectoryError zip_path), fs0)
  | None => (Raise (FileNotFoundError zip_path), fs0)
  end.

(** [if not zip_content] *)
Definition falsy_bytes (c : option string) : bool :=
  match c with
  | None => true
  | Some EmptyString => true
  | Some _ => false
  end.

(** Lines 65-112, the branch [item_type == "plugin"]. *)
Definition run_plugin (owner repo : string) : M unit :=
  emit (Progress ("Downloading " ++ repo ++ "..."));;
  zip_content <- pure_call DownloadRepositoryZip
                   (fun _ => download_repository_zip w owner repo);;
  if falsy_bytes zip_content then
    emit (Finished false "Failed to download repository")
  else
    tmp <- call Mkdtemp mkdtemp;;
    bind_temp_dir tmp;;
    zip_path <- call OpenZip (open_named tmp (repo ++ ".zip"));;
    call WriteZip (write zip_path (match zip_content with Some c => c | None => "" end));;
    emit (Progress "Extracting...");;
    call ExtractAll (extractall zip_path tmp);;
    emit (Progress "Analyzing plugin structure...");;
    plugin_dir <- pure_call FindPluginRoot (fun fs0 => find_plugin_root fs0 tmp);;
    match plugin_dir with
    | None =>
        emit (Finished false
                "No valid plugin structure found (main.lua/_meta.lua missing)")
    | Some plugin_dir =>
        let plugin_name := plugin_name (pname plugin_dir) in
        emit (Progress "Installing...");;
        let target := pjoin (pjoin (install_path self) "plugins") plugin_name in
        fs0 <- get_fs;;
        (if exists_ fs0 target then call RmtreeTarget (rmtree target) else ret tt);;
        call Copytree (copytree plugin_dir target);;
        let success_msg :=
          if is_update self then repo ++ " updated successfully!"
          else repo ++ " installed successfully!" in
        emit (Finished true success_msg)
    end.

(** Lines 122-126, the loop over [patches]; [i] counts the iterations. *)
Fixpoint install_patches (patch_dir : path) (i : nat) (patches : list patch)
  : M unit :=
  match patches with
  | [] => ret tt
  | p :: rest =>
      text <- pure_call (RequestsGet i) (fun _ => response_text w (download_url p));;
      patch_file <- call (OpenPatch i) (open_named patch_dir (patch_name p));;
      call (WritePatch i) (write patch_file text);;
      install_patches patch_dir (S i) rest
  end.

(** Lines 114-130, the branch [item_type == "patch"]. *)
Definition run_patch (owner repo : string) : M unit :=
  patches <- pure_call GetPatchFiles (fun _ => get_patch_files w owner repo);;
  match patches with
  | Some (p :: rest) =>
      emit (Progress "Downloading patches...");;
      let patch_dir := pjoin (install_path self) "patches" in
      call MkdirPatches (path_mkdir_exist_ok patch_dir);;
      install_patches patch_dir 0 (p :: rest);;
      emit (Finished true (str_of_nat (List.length (p :: rest)) ++ " patch(es) installed!"))
  | _ => emit (Finished false "No patches found")
  end.

(** Lines 65-130, the body of the [try] from the test of [item_type]
    on, for an [item_data] in which lines 62-63 have found [owner] and
    [repo]; [run_dict] below reads the dictionary first. *)
Definition run_body : M unit :=
  let owner := login (owner (item_data self)) in
  let repo := name (item_data self) in
  if String.eqb (item_type self) "plugin" then run_plugin owner repo
  else if String.eqb (item_type self) "patch" then run_patch owner repo
  else ret tt.

(** Lines 132-134, [except Exception as e]. *)
Definition on_error (e : exn) : M unit :=
  emit (Log ERROR ("Error during installation: " ++ exn_str e));;
  emit (Finished false ("Error: " ++ exn_str e)).

(** Lines 135-142, the [finally] block. *)
Definition cleanup : M unit :=
  tmp <- get_temp_dir;;
  fs0 <- get_fs;;
  match tmp with
  | Some t =>
      if exists_ fs0 t then
        try_except
          (call RmtreeTemp (rmtree t);;
           emit (Log INFO ("Cleaned up temporary directory: " ++ path_str t)))
          (fun cleanup_error =>
             emit (Log WARNING ("Failed to cleanup temporary directory "
                                ++ path_str t ++ ": " ++ exn_str cleanup_error)))
      else ret tt
  | None => ret tt
  end.

(** [DownloadWorker.run] for an [item_data] that holds both keys. *)
Definition run : M unit :=
  try_finally (try_except run_body on_error) cleanup.

End Run.

(** ** [item_data] as a dictionary *)

(** [item_data] as the dictionary it is: ["owner"] may be missing, or
    be a dictionary without ["login"]; ["name"] may be missing.  The
    values that are present are strings, as in the store's JSON. *)
Record item_dict : Type := {
  owner_entry : option (option string);
  name_entry : option string
}.

Definition KeyError (key : string) : exn := Exn "KeyError" ("'" ++ key ++ "'").

(** Lines 62-63: [owner = self.item_data["owner"]["login"]] and
    [repo = self.item_data["name"]], in this order. *)
Definition read_item (d : item_dict) : res item :=
  match owner_entry d with
  | None => Raise (KeyError "owner")
  | Some None => Raise (KeyError "login")
  | Some (Some o) =>
      match name_entry d with
      | None => Raise (KeyError "name")
      | Some r => Ok {| owner := {| login := o |}; name := r |}
      end
  end.

(** The worker as [__init__] leaves it, [item_data] unread. *)
Record raw_worker : Type := {
  raw_item_data : item_dict;
  raw_install_path : path;
  raw_item_type : string;
  raw_is_update : bool
}.

Definition worker_of (rw : raw_worker) (it : item) : worker :=
  {| item_data := it;
     install_path := raw_install_path rw;
     item_type := raw_item_type rw;
     is_update := raw_is_update rw |}.

(** [DownloadWorker.run], lines 60-142: the two subscriptions of lines
    62-63 are the first statements inside the [try]. *)
Definition run_dict (w : world) (rw : raw_worker) : M unit :=
  try_finally
    (try_except
       (fun s =>
          match read_item (raw_item_data rw) with
          | Ok it => run_body w (worker_of rw it) s
          | Raise e => (Raise e, s)
          end)
       on_error)
    (cleanup w).

(** ** Reading a trace *)

(** The [finished] signals of a trace, in order. *)
Definition finished_of (tr : list event) : list (bool * string) :=
  flat_map (fun ev => match ev with
                      | Finished ok msg => [(ok, msg)]
                      | _ => []
                      end) tr.

Definition progress_of (tr : list event) : list string :=
  flat_map (fun ev => match ev with
                      | Progress msg => [msg]
                      | _ => []
                      end) tr.

Definition is_call (o : op) (ev : event) : bool :=
  match ev, o with
  | Call DownloadRepositoryZip, DownloadRepositoryZip => true
  | Call Mkdtemp, Mkdtemp => true
  | Call OpenZip, OpenZip => true
  | Call WriteZip, WriteZip => true
  | Call ExtractAll, ExtractAll => true
  | Call FindPluginRoot, FindPluginRoot => true
  | Call RmtreeTarget, RmtreeTarget => true
  | Call Copytree, Copytree => true
  | Call GetPatchFiles, GetPatchFiles => true
  | Call MkdirPatches, MkdirPatches => true
  | Call (RequestsGet i), RequestsGet j => Nat.eqb i j
  | Call (OpenPatch i), OpenPatch j => Nat.eqb i j
  | Call (WritePatch i), WritePatch j => Nat.eqb i j
  | Call RmtreeTemp, RmtreeTemp => true
  | _, _ => false
  end.

(** Was [o] called? *)
Definition called (o : op) (tr : list event) : bool := existsb (is_call o) tr.

(** How many patch files were written. *)
Definition writes_of (tr : list event) : nat :=
  List.length (filter (fun ev => match ev with
                                 | Call (WritePatch _) => true
                                 | _ => false
                                 end) tr).

(** The calls of the loop over [patches]. *)
Definition is_patch_call (ev : event) : bool :=
  match ev with
  | Call (RequestsGet _) | Call (OpenPatch _) | Call (WritePatch _) => true
  | _ => false
  end.

(** Is a [finished] signal emitted before every call of
    [shutil.rmtree(temp_dir)]?  [seen] tells whether one was met. *)
Fixpoint outcome_precedes_cleanup (seen : bool) (tr : list event) : bool :=
  match tr with
  | [] => true
  | Finished _ _ :: tr' => outcome_precedes_cleanup true tr'
  | Call RmtreeTemp :: tr' => seen && outcome_precedes_cleanup seen tr'
  | _ :: tr' => outcome_precedes_cleanup seen tr'
  end.

(** What a ["plugin"] run has emitted and called when it announces the
    installation: the fetch, the workspace, the archive, its
    extraction and the locator, all without an exception. *)
Definition located_events (repo : string) : list event :=
  [ Progress ("Downloading " ++ repo ++ "...");
    Call DownloadRepositoryZip;
    Call Mkdtemp; Call OpenZip; Call WriteZip;
    Progress "Extracting...";
    Call ExtractAll;
    Progress "Analyzing plugin structure...";
    Call FindPluginRoot;
    Progress "Installing..." ].

(** ** The states of the pipeline *)

Inductive phase : Type :=
| Downloading | Extracting | Locating | Staging | Committing
| CleaningUp | Succeeded | Failed.

(** The state in which each call is made: fetching the archive or the
    patch list is Downloading; the workspace, the archive file and its
    extraction are Extracting; the locator is Locating; ensuring the
    [patches] directory is Staging; replacing the install target and
    fetching and writing each patch are Committing; removing the
    workspace is CleaningUp. *)
Definition phase_of_op (o : op) : phase :=
  match o with
  | DownloadRepositoryZip | GetPatchFiles => Downloading
  | Mkdtemp | OpenZip | WriteZip | ExtractAll => Extracting
  | FindPluginRoot => Locating
  | MkdirPatches => Staging
  | RmtreeTarget | Copytree | RequestsGet _ | OpenPatch _ | WritePatch _ => Committing
  | RmtreeTemp => CleaningUp
  end.

Definition phases (tr : list event) : list phase :=
  flat_map (fun ev => match ev with
                      | Call o => [phase_of_op o]
                      | Finished true _ => [Succeeded]
                      | Finished false _ => [Failed]
                      | _ => []
                      end) tr.

(** The order the specification draws:
    Downloading, Extracting, Locating, Staging, Committing, CleaningUp,
    then Succeeded or Failed. *)
Definition spec_rank (p : phase) : nat :=
  match p with
  | Downloading => 1 | Extracting => 2 | Locating => 3 | Staging => 4
  | Committing => 5 | CleaningUp => 6 | Succeeded => 7 | Failed => 7
  end.

(** The order with the terminal outcome ahead of CleaningUp. *)
Definition code_rank (p : phase) : nat :=
  match p with
  | Downloading => 1 | Extracting => 2 | Locating => 3 | Staging => 4
  | Committing => 5 | Succeeded => 6 | Failed => 6 | CleaningUp => 7
  end.

Fixpoint nondecreasing (l : list nat) : bool :=
  match l with
  | [] => true
  | x :: l' =>
      match l' with
      | [] => true
      | y :: _ => Nat.leb x y && nondecreasing l'
      end
  end.

(** A trace follows a linear order of states when the states of its
    events never step back. *)
Definition follows (rank : phase -> nat) (tr : list event) : bool :=
  nondecreasing (map rank (phases tr)).

(** What the body of the [try] appends to the trace: states that never
    step back, none past the terminal one (none past Committing when
    the body raises), no removal of the workspace, and a [finished]
    signal whenever the body returns with [temp_dir] newly bound. *)
Definition body_states (r : res unit) (s s' : state) (evs : list event) : Prop :=
  trace s' = (trace s ++ evs)%list /\
  nondecreasing (map code_rank (phases evs)) = true /\
  forallb (fun k => Nat.leb k (match r with Ok _ => 6 | Raise _ => 5 end))
          (map code_rank (phases evs)) = true /\
  called RmtreeTemp evs = false /\
  (temp_dir s' = temp_dir s \/
   match r with Ok _ => finished_of evs <> [] | Raise _ => True end).

(** ** Paths that lie apart *)

(** One of the two paths is the other or an ancestor of it. *)
Definition comparable (a b : path) : bool := is_prefix a b || is_prefix b a.

(** [n'] agrees with [n] on every path that lies apart from [t]. *)
Definition same_outside (t : path) (n n' : node) : Prop :=
  forall q, comparable t q = false -> lookup n' q = lookup n q.

(** ** Concrete worlds *)

Definition no_fault : op -> option exn := fun _ => None.

Definition two_patches : list patch :=
  [ {| patch_name := "2-fix.lua"; download_url := "https://h/2-fix.lua" |};
    {| patch_name := "9-ui.lua"; download_url := "https://h/9-ui.lua" |} ].

(** A repository archive: the plugin sits in a sub-directory. *)
Definition repo_archive : list member :=
  [ MDir ["y-main"];
    MDir ["y-main"; "coolplugin.koplugin"];
    MFile ["y-main"; "coolplugin.koplugin"; "main.lua"] "return {}";
    MFile ["y-main"; "coolplugin.koplugin"; "_meta.lua"] "return {}";
    MFile ["y-main"; "coolplugin.koplugin"; "other.lua"] "-- other" ].

(** A release archive: the plugin's files sit at the archive root. *)
Definition release_archive : list member :=
  [ MFile ["main.lua"] "return {}";
    MFile ["_meta.lua"] "return {}" ].

Definition a_world (ms : list member) (rnd : string) : world :=
  {| download_repository_zip := fun _ _ => Some "PK";
     get_patch_files := fun _ _ => Some two_patches;
     response_text := fun url => "-- " ++ url;
     zip_members := fun _ => (ms, None);
     gettempdir := ["tmp"];
     random_name := rnd;
     fault := no_fault |}.

(** The archive source answers nothing. *)
Definition silent_world : world :=
  {| download_repository_zip := fun _ _ => None;
     get_patch_files := fun _ _ => Some [];
     response_text := fun _ => "";
     zip_members := fun _ => ([], None);
     gettempdir := ["tmp"];
     random_name := "k3x9q_ab";
     fault := no_fault |}.

Definition a_worker (kind : string) : worker :=
  {| item_data := {| owner := {| login := "x" |}; name := "y" |};
     install_path := ["koreader"];
     item_type := kind;
     is_update := false |}.

(** A disk with the temporary location and the install root. *)
Definition a_disk : node := Dir [("tmp", Dir []); ("koreader", Dir [])].

(** A disk on which the install root is missing. *)
Definition bare_disk : node := Dir [("tmp", Dir [])].

(** An archive without a plugin in it. *)
Definition readme_archive : list member :=
  [ MDir ["y-main"]; MFile ["y-main"; "README.md"] "# y" ].

(** A disk on which [coolplugin.koplugin] is already installed. *)
Definition installed_disk : node :=
  Dir [("tmp", Dir []);
       ("koreader",
        Dir [("plugins",
              Dir [("coolplugin.koplugin",
                    Dir [("main.lua", File "-- old");
                         ("_meta.lua", File "-- old");
                         ("old.lua", File "-- old")])])])].

(** A directory whose entries [main.lua] and [_meta.lua] are themselves
    directories. *)
Definition marker_dirs_disk : node :=
  Dir [("base", Dir [("main.lua", Dir []); ("_meta.lua", Dir [])])].

(** The text a patch file called [n] holds after the loop over [ps]:
    that of the last entry of that name. *)
Fixpoint final_text (w : world) (n : string) (ps : list patch) : option string :=
  match ps with
  | [] => None
  | p :: rest =>
      match final_text w n rest with
      | Some t => Some t
      | None =>
          if String.eqb (patch_name p) n
          then Some (response_text w (download_url p))
          else None
      end
  end.

(** A world whose patch list is [ps]. *)
Definition a_patch_world (ps : list patch) : world :=
  {| download_repository_zip := fun _ _ => Some "PK";
     get_patch_files := fun _ _ => Some ps;
     response_text := fun url => "-- " ++ url;
     zip_members := fun _ => ([], None);
     gettempdir := ["tmp"];
     random_name := "k3x9q_ab";
     fault := no_fault |}.

(** A ["plugin"] worker whose repository name climbs out of the
    workspace [/tmp/koreader_store_...] into an installed plugin. *)
Definition climbing_worker : worker :=
  {| item_data :=
       {| owner := {| login := "x" |};
          name := "../../koreader/plugins/coolplugin.koplugin/x" |};
     install_path := ["koreader"];
     item_type := "plugin";
     is_update := false |}.

(** A worker as [__init__] leaves it, with both keys in [item_data]. *)
Definition a_raw_worker (kind : string) : raw_worker :=
  {| raw_item_data := {| owner_entry := Some (Some "x"); name_entry := Some "y" |};
     raw_install_path := ["koreader"];
     raw_item_type := kind;
     raw_is_update := false |}.

(** A worker of an unknown kind whose [item_data] has no ["owner"]. *)
Definition ownerless_worker : raw_worker :=
  {| raw_item_data := {| owner_entry := None; name_entry := Some "y" |};
     raw_install_path := ["koreader"];
     raw_item_type := "theme";
     raw_is_update := false |}.

(** ** Well-formed trees *)

(** No name occurs twice in a listing. *)
Fixpoint distinct (names : list string) : bool :=
  match names with
  | [] => true
  | x :: names' => negb (name_in x names') && distinct names'
  end.

(** Every directory of the tree lists each name once, as a file system
    does. *)
Fixpoint unique_names (n : node) : bool :=
  match n with
  | File _ => true
  | Dir es =>
      distinct (map fst es) &&
      (fix all (l : list (string * node)) : bool :=
         match l with
         | [] => true
         | (_, child) :: l' => unique_names child && all l'
         end) es
  end.

(** ** Signals *)

(** No [progress] and no [finished] signal follows a [finished]
    signal; [seen] tells whether one was met. *)
Fixpoint no_signal_after_finished (seen : bool) (tr : list event) : bool :=
  match tr with
  | [] => true
  | Progress _ :: tr' => negb seen && no_signal_after_finished seen tr'
  | Finished _ _ :: tr' => negb seen && no_signal_after_finished true tr'
  | _ :: tr' => no_signal_after_finished seen tr'
  end.

Definition has_finished (tr : list event) : bool :=
  match finished_of tr with [] => false | _ :: _ => true end.

(** The [progress] messages of the ["plugin"] branch, in the order of
    lines 66, 80, 84 and 100. *)
Definition plugin_progress (repo : string) : list string :=
  [ "Downloading " ++ repo ++ "...";
    "Extracting...";
    "Analyzing plugin structure...";
    "Installing..." ].

(** Lines 74-82 when no call is refused from outside: the workspace
    created, the archive written where [temp_dir / f"{repo}.zip"]
    resolves to, and extracted into the workspace.  The answer of
    [extractall], and the file system it leaves. *)
Definition staging (w : world) (self : worker) (fs0 : node) : res unit * node :=
  let owner := login (owner (item_data self)) in
  let repo := name (item_data self) in
  let tmp := mkdtemp_path w in
  let content :=
    match download_repository_zip w owner repo with
    | Some c => c
    | None => ""
    end in
  let opened := open_named tmp (repo ++ ".zip") (snd (mkdtemp w fs0)) in
  let zip_path :=
    match fst opened with
    | Ok p => p
    | Raise _ => pjoin tmp (repo ++ ".zip")
    end in
  extractall w zip_path tmp (snd (write zip_path content (snd opened))).

(** The file system as lines 74-82 leave it for the locator. *)
Definition staged (w : world) (self : worker) (fs0 : node) : node :=
  snd (staging w self fs0).

(** [{install_path}/plugins] and [{install_path}/patches]. *)
Definition plugins_dir (self : worker) : path :=
  pjoin (install_path self) "plugins".

Definition patches_dir (self : worker) : path :=
  pjoin (install_path self) "patches".

(** What the [except] clause appends for the outcome [r] of the [try]
    body (lines 132-134). *)
Definition handler_events (r : res unit) : list event :=
  match r with
  | Ok _ => []
  | Raise e =>
      [ Log ERROR ("Error during installation: " ++ exn_str e);
        Finished false ("Error: " ++ exn_str e) ]
  end.

(* ================================================================== *)
(** * Part II: properties *)
(* ================================================================== *)

(** ** Strings *)

Lemma endswith_cons (a : ascii) (s suffix : string) :
  endswith (String a s) suffix =
  if String.eqb (String a s) suffix then true else endswith s suffix.
Proof. reflexivity. Qed.

Lemma endswith_refl (s : string) : endswith s s = true.
Proof.
  destruct s; [reflexivity|].
  now rewrite endswith_cons, String.eqb_refl.
Qed.

Lemma endswith_app (pre suffix : string) :
  endswith (pre ++ suffix) suffix = true.
Proof.
  induction pre as [|a pre IH].
  - apply endswith_refl.
  - change (String a pre ++ suffix) with (String a (pre ++ suffix)).
    rewrite endswith_cons.
    destruct (String.eqb (String a (pre ++ suffix)) suffix);
      [reflexivity | apply IH].
Qed.

Lemma endswith_inv (s suffix : string) :
  endswith s suffix = true -> exists pre, s = pre ++ suffix.
Proof.
  induction s as [|a s IH].
  - destruct suffix; [exists ""; reflexivity | discriminate].
  - rewrite endswith_cons.
    destruct (String.eqb (String a s) suffix) eqn:E.
    + apply String.eqb_eq in E. exists "". now rewrite E.
    + intros H. destruct (IH H) as [pre ->]. now exists (String a pre).
Qed.

(** [endswith] is Python's: the string is some prefix followed by the
    suffix. *)
Lemma endswith_spec (s suffix : string) :
  endswith s suffix = true <-> exists pre, s = pre ++ suffix.
Proof.
  split; [apply endswith_inv|].
  intros [pre ->]. apply endswith_app.
Qed.

(** ** Install name *)

(** C8. The install name of a directory called [foo.koplugin] and of
    one called [foo] is [foo.koplugin] in both cases; in general the
    name is kept when it ends with [.koplugin] and gets [.koplugin]
    appended otherwise, so that the result always ends with the
    extension and deriving a name from a derived name changes nothing
    (the extension is never doubled). *)
Theorem plugin_name_idempotent :
  plugin_name "foo.koplugin" = "foo.koplugin" /\
  plugin_name "foo" = "foo.koplugin" /\
  (forall stem, plugin_name (stem ++ ".koplugin") = stem ++ ".koplugin") /\
  (forall d, plugin_name d =
             if endswith d ".koplugin" then d else d ++ ".koplugin") /\
  (forall d, endswith (plugin_name d) ".koplugin" = true) /\
  (forall d, plugin_name (plugin_name d) = plugin_name d).
Proof.
  assert (Hdef : forall d, plugin_name d =
                   if endswith d ".koplugin" then d else d ++ ".koplugin").
  { intros d. unfold plugin_name. now destruct (endswith d ".koplugin"). }
  assert (Hends : forall d, endswith (plugin_name d) ".koplugin" = true).
  { intros d. rewrite Hdef. destruct (endswith d ".koplugin") eqn:E.
    - exact E.
    - apply endswith_app. }
  repeat split.
  - intros stem. rewrite Hdef. now rewrite endswith_app.
  - exact Hdef.
  - exact Hends.
  - intros d. rewrite (Hdef (plugin_name d)). now rewrite Hends.
Qed.

(** ** Directory listings *)

Lemma assoc_set_entry_eq c v es m :
  assoc c es = Some m -> assoc c (set_entry c v es) = Some v.
Proof.
  induction es as [|[k x] es IH]; simpl; [discriminate|].
  destruct (String.eqb k c) eqn:E; simpl; rewrite E; auto.
Qed.

Lemma assoc_set_entry_neq c d v es :
  String.eqb c d = false -> assoc d (set_entry c v es) = assoc d es.
Proof.
  intros Hcd. induction es as [|[k x] es IH]; simpl; [reflexivity|].
  destruct (String.eqb k c) eqn:E; simpl.
  - apply String.eqb_eq in E. subst k. now rewrite Hcd.
  - now rewrite IH.
Qed.

Lemma assoc_app_eq c v es :
  assoc c es = None -> assoc c (es ++ [(c, v)]) = Some v.
Proof.
  induction es as [|[k x] es IH]; simpl.
  - now rewrite String.eqb_refl.
  - destruct (String.eqb k c); [discriminate | exact IH].
Qed.

Lemma assoc_app_neq c d v es :
  String.eqb c d = false -> assoc d (es ++ [(c, v)]) = assoc d es.
Proof.
  intros Hcd. induction es as [|[k x] es IH]; simpl.
  - now rewrite Hcd.
  - now rewrite IH.
Qed.

Lemma assoc_del_eq c es : assoc c (del_entry c es) = None.
Proof.
  induction es as [|[k x] es IH]; simpl; [reflexivity|].
  destruct (String.eqb k c) eqn:E; simpl; [exact IH|].
  now rewrite E.
Qed.

Lemma assoc_del_neq c d es :
  String.eqb c d = false -> assoc d (del_entry c es) = assoc d es.
Proof.
  intros Hcd. induction es as [|[k x] es IH]; simpl; [reflexivity|].
  destruct (String.eqb k c) eqn:E; simpl.
  - apply String.eqb_eq in E. subst k. now rewrite Hcd.
  - now rewrite IH.
Qed.

(** ** Paths *)

Lemma is_prefix_refl p : is_prefix p p = true.
Proof. induction p; simpl; [reflexivity|]. now rewrite String.eqb_refl. Qed.

Lemma is_prefix_app p r : is_prefix p (p ++ r) = true.
Proof. induction p; simpl; [reflexivity|]. now rewrite String.eqb_refl. Qed.

Lemma is_prefix_inv a b :
  is_prefix a b = true -> exists r, b = (a ++ r)%list.
Proof.
  revert b. induction a as [|x a IH]; intros b H.
  - now exists b.
  - destruct b as [|y b]; [discriminate|]. simpl in H.
    apply andb_true_iff in H as [Hxy Hab].
    apply String.eqb_eq in Hxy. subst y.
    destruct (IH _ Hab) as [r ->]. now exists r.
Qed.

Lemma is_prefix_trans a b c :
  is_prefix a b = true -> is_prefix b c = true -> is_prefix a c = true.
Proof.
  intros Hab Hbc.
  apply is_prefix_inv in Hab as [r ->]. apply is_prefix_inv in Hbc as [r' ->].
  rewrite <- app_assoc. apply is_prefix_app.
Qed.

Lemma comparable_sym a b : comparable a b = comparable b a.
Proof. unfold comparable. apply orb_comm. Qed.

Lemma comparable_cons x a y b :
  comparable (x :: a) (y :: b) = String.eqb x y && comparable a b.
Proof.
  unfold comparable. simpl. rewrite (String.eqb_sym y x).
  destruct (String.eqb x y); reflexivity.
Qed.

Lemma comparable_nil_l q : comparable [] q = true.
Proof. reflexivity. Qed.

Lemma comparable_nil_r q : comparable q [] = true.
Proof. rewrite comparable_sym. reflexivity. Qed.

(** Whatever lies apart from a directory lies apart from everything
    inside it. *)
Lemma comparable_under t p q :
  is_prefix t p = true -> comparable t q = false -> comparable p q = false.
Proof.
  revert p q. induction t as [|x t IH]; intros p q Hp Hq.
  - discriminate.
  - destruct p as [|y p]; [discriminate|]. simpl in Hp.
    apply andb_true_iff in Hp as [Hxy Hp]. apply String.eqb_eq in Hxy. subst y.
    destruct q as [|z q]; [now rewrite comparable_nil_r in Hq|].
    rewrite comparable_cons in *.
    destruct (String.eqb x z); [|reflexivity].
    simpl in *. now apply IH.
Qed.

Lemma comparable_siblings d a b :
  String.eqb a b = false -> comparable (pjoin d a) (pjoin d b) = false.
Proof.
  intros Hab. unfold pjoin. induction d as [|x d IH]; simpl.
  - rewrite comparable_cons. now rewrite Hab.
  - rewrite comparable_cons. now rewrite String.eqb_refl.
Qed.

(** ** Looking up after an update *)

Lemma lookup_app n p q :
  lookup n (p ++ q) =
  match lookup n p with Some m => lookup m q | None => None end.
Proof.
  revert n. induction p as [|c p IH]; intros n; simpl; [reflexivity|].
  destruct n as [|es]; [reflexivity|].
  destruct (assoc c es); [apply IH | reflexivity].
Qed.

(** The ancestors of an existing path exist. *)
Lemma exists_prefix n a b :
  is_prefix a b = true -> exists_ n b = true -> exists_ n a = true.
Proof.
  intros Hab. apply is_prefix_inv in Hab as [r ->].
  unfold exists_. rewrite lookup_app.
  now destruct (lookup n a).
Qed.

Lemma put_lookup p x n n' : put p x n = Some n' -> lookup n' p = Some x.
Proof.
  revert n n'. induction p as [|c p IH]; intros n n' H; simpl in *.
  - now inversion H.
  - destruct n as [|es]; [discriminate|].
    destruct (assoc c es) as [m|] eqn:Ha.
    + destruct (put p x m) as [m'|] eqn:Hp; [|discriminate].
      inversion H; subst n'. simpl.
      rewrite (assoc_set_entry_eq _ _ _ _ Ha). now apply IH with m.
    + destruct p; [|discriminate]. inversion H; subst n'. simpl.
      now rewrite (assoc_app_eq _ _ _ Ha).
Qed.

(** An update at [p] is not seen from a path that lies apart from [p]. *)
Lemma put_frame p x n n' q :
  put p x n = Some n' -> comparable p q = false -> lookup n' q = lookup n q.
Proof.
  revert n n' q. induction p as [|c p IH]; intros n n' q H Hq.
  - discriminate.
  - destruct q as [|d q]; [now rewrite comparable_nil_r in Hq|].
    rewrite comparable_cons in Hq. simpl in H.
    destruct n as [|es]; [discriminate|].
    destruct (String.eqb c d) eqn:Hcd; simpl in Hq.
    + apply String.eqb_eq in Hcd. subst d.
      destruct (assoc c es) as [m|] eqn:Ha.
      * destruct (put p x m) as [m'|] eqn:Hp; [|discriminate].
        inversion H; subst n'. simpl.
        rewrite (assoc_set_entry_eq _ _ _ _ Ha), Ha. now apply (IH m m' q).
      * destruct p; [now rewrite comparable_nil_l in Hq | discriminate].
    + destruct (assoc c es) as [m|] eqn:Ha.
      * destruct (put p x m) as [m'|]; [|discriminate].
        inversion H; subst n'. simpl. now rewrite assoc_set_entry_neq.
      * destruct p; [|discriminate]. inversion H; subst n'. simpl.
        now rewrite assoc_app_neq.
Qed.

Lemma remove_lookup p n n' : remove p n = Some n' -> lookup n' p = None.
Proof.
  revert n n'. induction p as [|c p IH]; intros n n' H; simpl in *.
  - discriminate.
  - destruct n as [|es]; [discriminate|].
    destruct (assoc c es) as [m|] eqn:Ha; [|discriminate].
    destruct p as [|c' p].
    + inversion H; subst n'. simpl. now rewrite assoc_del_eq.
    + destruct (remove (c' :: p) m) as [m'|] eqn:Hr; [|discriminate].
      inversion H; subst n'.
      change (lookup (Dir (set_entry c m' es)) (c :: c' :: p))
        with (match assoc c (set_entry c m' es) with
              | Some k => lookup k (c' :: p) | None => None end).
      rewrite (assoc_set_entry_eq _ _ _ _ Ha). now apply IH with m.
Qed.

Lemma remove_frame p n n' q :
  remove p n = Some n' -> comparable p q = false -> lookup n' q = lookup n q.
Proof.
  revert n n' q. induction p as [|c p IH]; intros n n' q H Hq.
  - discriminate.
  - destruct q as [|d q]; [now rewrite comparable_nil_r in Hq|].
    rewrite comparable_cons in Hq. simpl in H.
    destruct n as [|es]; [discriminate|].
    destruct (assoc c es) as [m|] eqn:Ha; [|discriminate].
    destruct (String.eqb c d) eqn:Hcd; simpl in Hq.
    + apply String.eqb_eq in Hcd. subst d.
      destruct p as [|c' p]; [discriminate|].
      destruct (remove (c' :: p) m) as [m'|] eqn:Hr; [|discriminate].
      inversion H; subst n'.
      change (lookup (Dir (set_entry c m' es)) (c :: q))
        with (match assoc c (set_entry c m' es) with
              | Some k => lookup k q | None => None end).
      rewrite (assoc_set_entry_eq _ _ _ _ Ha).
      change (lookup (Dir es) (c :: q))
        with (match assoc c es with Some k => lookup k q | None => None end).
      rewrite Ha. now apply IH.
    + destruct p as [|c' p].
      * inversion H; subst n'. simpl. now rewrite assoc_del_neq.
      * destruct (remove (c' :: p) m) as [m'|]; [|discriminate].
        inversion H; subst n'. simpl. now rewrite assoc_set_entry_neq.
Qed.

Lemma mkdirs_lookup p n n' :
  mkdirs p n = Some n' -> exists es, lookup n' p = Some (Dir es).
Proof.
  revert n n'. induction p as [|c p IH]; intros n n' H.
  - destruct n as [|es]; [discriminate|]. inversion H; subst. now exists es.
  - destruct n as [|es]; [discriminate|]. simpl in H.
    destruct (assoc c es) as [m|] eqn:Ha.
    + destruct (mkdirs p m) as [m'|] eqn:Hm; [|discriminate].
      inversion H; subst n'. simpl.
      rewrite (assoc_set_entry_eq _ _ _ _ Ha). now apply IH with m.
    + destruct (mkdirs p (Dir [])) as [m'|] eqn:Hm; [|discriminate].
      inversion H; subst n'. simpl.
      rewrite (assoc_app_eq _ _ _ Ha). now apply IH with (Dir []).
Qed.

Lemma mkdirs_frame p n n' q :
  mkdirs p n = Some n' -> comparable p q = false -> lookup n' q = lookup n q.
Proof.
  revert n n' q. induction p as [|c p IH]; intros n n' q H Hq.
  - discriminate.
  - destruct q as [|d q]; [now rewrite comparable_nil_r in Hq|].
    rewrite comparable_cons in Hq.
    destruct n as [|es]; [discriminate|]. simpl in H.
    destruct (String.eqb c d) eqn:Hcd; simpl in Hq.
    + apply String.eqb_eq in Hcd. subst d.
      destruct (assoc c es) as [m|] eqn:Ha.
      * destruct (mkdirs p m) as [m'|] eqn:Hm; [|discriminate].
        inversion H; subst n'. simpl.
        rewrite (assoc_set_entry_eq _ _ _ _ Ha), Ha. now apply (IH m m' q).
      * destruct (mkdirs p (Dir [])) as [m'|] eqn:Hm; [|discriminate].
        inversion H; subst n'. simpl.
        rewrite (assoc_app_eq _ _ _ Ha), Ha.
        rewrite (IH _ _ q Hm Hq).
        destruct q; [now rewrite comparable_nil_r in Hq | reflexivity].
    + destruct (assoc c es) as [m|] eqn:Ha.
      * destruct (mkdirs p m) as [m'|]; [|discriminate].
        inversion H; subst n'. simpl. now rewrite assoc_set_entry_neq.
      * destruct (mkdirs p (Dir [])) as [m'|]; [|discriminate].
        inversion H; subst n'. simpl. now rewrite assoc_app_neq.
Qed.

(** ** What a call leaves untouched *)

Lemma same_outside_refl t n : same_outside t n n.
Proof. now intros q _. Qed.

Lemma same_outside_trans t n1 n2 n3 :
  same_outside t n1 n2 -> same_outside t n2 n3 -> same_outside t n1 n3.
Proof. intros H12 H23 q Hq. now rewrite H23, H12. Qed.

Lemma put_outside t p x n n' :
  is_prefix t p = true -> put p x n = Some n' -> same_outside t n n'.
Proof.
  intros Ht H q Hq. eapply put_frame; [exact H|].
  now apply comparable_under with t.
Qed.

Lemma put_keeps d p x n n' :
  is_prefix d p = true -> put p x n = Some n' -> exists_ n' d = true.
Proof.
  intros Hd H. apply exists_prefix with p; [exact Hd|].
  unfold exists_. now rewrite (put_lookup _ _ _ _ H).
Qed.

Section Confined.

Variables (t p : path).
Hypothesis Htp : is_prefix t p = true.

Lemma os_mkdir_outside fs0 r fs1 :
  os_mkdir p fs0 = (r, fs1) -> same_outside t fs0 fs1.
Proof.
  unfold os_mkdir. intros H.
  destruct (lookup fs0 p); [inversion H; apply same_outside_refl|].
  destruct (put p (Dir []) fs0) eqn:Hp; inversion H; subst.
  - now apply put_outside with p (Dir []).
  - apply same_outside_refl.
Qed.

Lemma os_mkdir_keeps fs0 r fs1 :
  exists_ fs0 t = true -> os_mkdir p fs0 = (r, fs1) -> exists_ fs1 t = true.
Proof.
  unfold os_mkdir. intros He H.
  destruct (lookup fs0 p); [now inversion H; subst|].
  destruct (put p (Dir []) fs0) eqn:Hp; inversion H; subst; [|exact He].
  now apply put_keeps with p (Dir []) fs0.
Qed.

Lemma path_mkdir_exist_ok_outside fs0 r fs1 :
  path_mkdir_exist_ok p fs0 = (r, fs1) -> same_outside t fs0 fs1.
Proof.
  unfold path_mkdir_exist_ok. intros H.
  destruct (lookup fs0 p) as [[|]|];
    try (now apply os_mkdir_outside with r).
  inversion H. apply same_outside_refl.
Qed.

Lemma open_w_outside fs0 r fs1 :
  open_w p fs0 = (r, fs1) -> same_outside t fs0 fs1.
Proof.
  unfold open_w. intros H.
  destruct (lookup fs0 p) as [[|]|];
    try (inversion H; apply same_outside_refl);
    (destruct (put p (File "") fs0) eqn:Hp; inversion H; subst;
     [now apply put_outside with p (File "") | apply same_outside_refl]).
Qed.

Lemma open_w_keeps fs0 r fs1 :
  exists_ fs0 t = true -> open_w p fs0 = (r, fs1) -> exists_ fs1 t = true.
Proof.
  unfold open_w. intros He H.
  destruct (lookup fs0 p) as [[|]|];
    try (now inversion H; subst);
    (destruct (put p (File "") fs0) eqn:Hp; inversion H; subst;
     [now apply put_keeps with p (File "") fs0 | exact He]).
Qed.

Lemma write_outside data fs0 r fs1 :
  write p data fs0 = (r, fs1) -> same_outside t fs0 fs1.
Proof.
  unfold write. intros H.
  destruct (lookup fs0 p) as [[|]|];
    try (inversion H; apply same_outside_refl).
  destruct (put p (File data) fs0) eqn:Hp; inversion H; subst;
    [now apply put_outside with p (File data) | apply same_outside_refl].
Qed.

Lemma write_keeps data fs0 r fs1 :
  exists_ fs0 t = true -> write p data fs0 = (r, fs1) -> exists_ fs1 t = true.
Proof.
  unfold write. intros He H.
  destruct (lookup fs0 p) as [[|]|]; try (now inversion H; subst).
  destruct (put p (File data) fs0) eqn:Hp; inversion H; subst; [|exact He].
  now apply put_keeps with p (File data) fs0.
Qed.

Lemma rmtree_outside fs0 r fs1 :
  rmtree p fs0 = (r, fs1) -> same_outside t fs0 fs1.
Proof.
  unfold rmtree. intros H.
  destruct (lookup fs0 p) as [[|]|];
    try (inversion H; apply same_outside_refl).
  destruct (remove p fs0) eqn:Hr; inversion H; subst;
    [|apply same_outside_refl].
  intros q Hq. eapply remove_frame; [exact Hr|].
  now apply comparable_under with t.
Qed.

End Confined.

(** A successful [shutil.rmtree(p)] leaves nothing at [p]. *)
Lemma rmtree_removes p fs0 fs1 :
  rmtree p fs0 = (Ok tt, fs1) -> exists_ fs1 p = false.
Proof.
  unfold rmtree. intros H.
  destruct (lookup fs0 p) as [[|]|]; try discriminate.
  destruct (remove p fs0) eqn:Hr; inversion H; subst.
  unfold exists_. now rewrite (remove_lookup _ _ _ Hr).
Qed.

(** ** Extraction stays inside its destination *)

Lemma removelast_is_prefix (p : path) : is_prefix (removelast p) p = true.
Proof.
  destruct p as [|c p]; [reflexivity|].
  rewrite (app_removelast_last "" (l := c :: p)) at 2 by discriminate.
  apply is_prefix_app.
Qed.

Lemma upperdirs_inside (dest a : path) :
  a <> [] -> is_prefix dest (removelast (dest ++ a)) = true.
Proof.
  intros Ha. rewrite removelast_app by exact Ha. apply is_prefix_app.
Qed.

Lemma extract_member_confined dest m fs0 r fs1 :
  exists_ fs0 dest = true ->
  extract_member dest m fs0 = (r, fs1) ->
  same_outside dest fs0 fs1 /\ exists_ fs1 dest = true.
Proof.
  intros He. unfold extract_member.
  set (target := match m with
                 | MFile a _ => (dest ++ a)%list
                 | MDir a => (dest ++ a)%list
                 end).
  assert (Ht : is_prefix dest target = true)
    by (destruct m; apply is_prefix_app).
  assert (Hmade : forall fsm,
             (if exists_ fs0 (removelast target) then Some fs0
              else mkdirs (removelast target) fs0) = Some fsm ->
             same_outside dest fs0 fsm /\ exists_ fsm dest = true).
  { intros fsm Hm.
    destruct (exists_ fs0 (removelast target)) eqn:Hu.
    - inversion Hm; subst. split; [apply same_outside_refl | exact He].
    - assert (Hin : is_prefix dest (removelast target) = true).
      { destruct m as [a data|a]; subst target.
        + destruct a as [|c a].
          * rewrite app_nil_r in Hu.
            rewrite (exists_prefix _ _ _ (removelast_is_prefix dest) He) in Hu.
            discriminate.
          * apply upperdirs_inside. discriminate.
        + destruct a as [|c a].
          * rewrite app_nil_r in Hu.
            rewrite (exists_prefix _ _ _ (removelast_is_prefix dest) He) in Hu.
            discriminate.
          * apply upperdirs_inside. discriminate. }
      split.
      + intros q Hq. eapply mkdirs_frame; [exact Hm|].
        now apply comparable_under with dest.
      + apply exists_prefix with (removelast target); [exact Hin|].
        destruct (mkdirs_lookup _ _ _ Hm) as [es Hes].
        unfold exists_. now rewrite Hes. }
  destruct (if exists_ fs0 (removelast target) then Some fs0
            else mkdirs (removelast target) fs0) as [fsm|] eqn:Hm.
  - destruct (Hmade fsm eq_refl) as [Hout Hex].
    destruct m as [a data|a].
    + destruct (open_w target fsm) as [[[]|e] fs2] eqn:Ho.
      * intros Hw. split.
        -- eapply same_outside_trans; [exact Hout|].
           eapply same_outside_trans;
             [eapply open_w_outside; [exact Ht | exact Ho]|].
           eapply write_outside; [exact Ht | exact Hw].
        -- eapply write_keeps; [exact Ht | | exact Hw].
           eapply open_w_keeps; [exact Ht | exact Hex | exact Ho].
      * intros Hw. inversion Hw; subst. split.
        -- eapply same_outside_trans; [exact Hout|].
           eapply open_w_outside; [exact Ht | exact Ho].
        -- eapply open_w_keeps; [exact Ht | exact Hex | exact Ho].
    + destruct (lookup fsm target) as [[|]|] eqn:Hl; intros Hw;
        try (split;
             [eapply same_outside_trans; [exact Hout|];
              eapply os_mkdir_outside; [exact Ht | exact Hw]
             |eapply os_mkdir_keeps; [exact Ht | exact Hex | exact Hw]]).
      inversion Hw; subst. now split.
  - intros Hw. inversion Hw; subst. split; [apply same_outside_refl | exact He].
Qed.

Lemma extract_members_confined dest ms fs0 r fs1 :
  exists_ fs0 dest = true ->
  extract_members dest ms fs0 = (r, fs1) ->
  same_outside dest fs0 fs1 /\ exists_ fs1 dest = true.
Proof.
  revert fs0. induction ms as [|m ms IH]; intros fs0 He H; simpl in H.
  - inversion H; subst. split; [apply same_outside_refl | exact He].
  - destruct (extract_member dest m fs0) as [[[]|e] fsm] eqn:Hm.
    + destruct (extract_member_confined _ _ _ _ _ He Hm) as [Ho Hk].
      destruct (IH _ Hk H) as [Ho' Hk'].
      split; [now apply same_outside_trans with fsm | exact Hk'].
    + inversion H; subst. exact (extract_member_confined _ _ _ _ _ He Hm).
Qed.

Lemma extractall_confined w zip_path dest fs0 r fs1 :
  exists_ fs0 dest = true ->
  extractall w zip_path dest fs0 = (r, fs1) ->
  same_outside dest fs0 fs1 /\ exists_ fs1 dest = true.
Proof.
  intros He. unfold extractall.
  destruct (lookup fs0 zip_path) as [[data|es]|];
    try (intros H; inversion H; subst;
         split; [apply same_outside_refl | exact He]).
  destruct (zip_members w data) as [ms failure].
  destruct (extract_members dest ms fs0) as [[[]|e] fsm] eqn:Hm; intros H.
  - destruct failure; inversion H; subst;
      exact (extract_members_confined _ _ _ _ _ He Hm).
  - inversion H; subst. exact (extract_members_confined _ _ _ _ _ He Hm).
Qed.

(** [mkdtemp] returns the path the world settles on, and leaves the
    directory in place. *)
Lemma mkdtemp_ok w fs0 tmp fs1 :
  mkdtemp w fs0 = (Ok tmp, fs1) ->
  tmp = mkdtemp_path w /\ same_outside tmp fs0 fs1 /\
  exists_ fs0 tmp = false /\ exists_ fs1 tmp = true.
Proof.
  unfold mkdtemp. intros H.
  destruct (os_mkdir (mkdtemp_path w) fs0) as [[[]|e] fsm] eqn:Hm;
    inversion H; subst.
  repeat split.
  - eapply os_mkdir_outside; [apply is_prefix_refl | exact Hm].
  - unfold os_mkdir in Hm. unfold exists_.
    destruct (lookup fs0 (mkdtemp_path w)); [discriminate | reflexivity].
  - unfold os_mkdir in Hm.
    destruct (lookup fs0 (mkdtemp_path w)); [discriminate|].
    destruct (put (mkdtemp_path w) (Dir []) fs0) eqn:Hp; inversion Hm; subst.
    eapply put_keeps; [apply is_prefix_refl | exact Hp].
Qed.

Lemma mkdtemp_raise w fs0 e fs1 :
  mkdtemp w fs0 = (Raise e, fs1) -> fs1 = fs0.
Proof.
  unfold mkdtemp, os_mkdir. intros H.
  destruct (lookup fs0 (mkdtemp_path w)); [now inversion H|].
  destruct (put (mkdtemp_path w) (Dir []) fs0); now inversion H.
Qed.

(** ** Running the pipeline symbolically *)

(** Unfold [run] down to the calls, then split on every fault, every
    outcome of a call and every test, one at a time. *)
Ltac exec_unfold :=
  cbv beta iota zeta delta
    [run run_body run_plugin run_patch on_error cleanup try_finally try_except
     bind ret emit call pure_call bind_temp_dir get_fs get_temp_dir start
     fs trace temp_dir fst snd].

Ltac exec_step :=
  first
  [ match goal with
    | |- context [if ?b then _ else _] => destruct b eqn:?
    | |- context [match ?x with Some _ => _ | None => _ end] => destruct x eqn:?
    | |- context [match ?x with [] => _ | _ :: _ => _ end] => destruct x eqn:?
    end
  | match goal with
    | |- context [match ?f ?x with (_, _) => _ end] =>
        let r := fresh "r" in destruct (f x) as [r ?] eqn:?; try destruct r
    end ];
  cbv beta iota zeta delta [fs trace temp_dir fst snd].

Ltac exec := exec_unfold; repeat exec_step.

(** Name the events a computation appended to the trace. *)
Ltac give_events :=
  rewrite <- ?app_assoc;
  first [ eexists; split; [reflexivity|]
        | exists []; split; [now rewrite app_nil_r|] ].

Lemma finished_of_app a b :
  finished_of (a ++ b) = (finished_of a ++ finished_of b)%list.
Proof. apply flat_map_app. Qed.

Lemma phases_app a b : phases (a ++ b) = (phases a ++ phases b)%list.
Proof. apply flat_map_app. Qed.

Lemma called_app o a b : called o (a ++ b) = called o a || called o b.
Proof. apply existsb_app. Qed.

(** *** The loop over the patches *)

(** The loop touches neither [temp_dir] nor the signals: it only
    appends calls of its own. *)
Lemma install_patches_trace w dir ps : forall i s r s',
  install_patches w dir i ps s = (r, s') ->
  exists evs fs',
    s' = {| fs := fs'; trace := trace s ++ evs; temp_dir := temp_dir s |} /\
    forallb is_patch_call evs = true.
Proof.
  induction ps as [|p ps IH]; intros i [fs0 tr td] r s' H.
  - inversion H; subst. exists [], fs0. simpl. now rewrite app_nil_r.
  - revert H. simpl. exec; intros H;
      try (inversion H; subst; rewrite <- ?app_assoc;
           do 2 eexists; split; reflexivity).
    apply IH in H. destruct H as (evs & fs' & -> & Hevs). simpl.
    rewrite <- ?app_assoc. do 2 eexists; split; [reflexivity|]. exact Hevs.
Qed.

Ltac use_loop :=
  try match goal with
      | H : install_patches _ _ _ _ _ = _ |- _ =>
          let Hevs := fresh "Hevs" in
          apply install_patches_trace in H;
          destruct H as (? & ? & -> & Hevs);
          cbv beta iota zeta delta [fs trace temp_dir fst snd]
      end.

(** Run the computation of hypothesis [H], one goal per path. *)
Ltac exec_in H :=
  revert H; exec; intros H; use_loop; inversion H; subst; clear H;
  cbv beta iota zeta delta [fs trace temp_dir fst snd].

Lemma patch_calls_finished evs :
  forallb is_patch_call evs = true -> finished_of evs = [].
Proof.
  induction evs as [|ev evs IH]; simpl; [reflexivity|].
  intros H. apply andb_true_iff in H as [H1 H2].
  destruct ev; try discriminate. simpl. auto.
Qed.

(** *** The [finally] block *)

(** The four ways through the [finally] block; it never raises and
    never rebinds [temp_dir]. *)
Lemma cleanup_cases w s :
  exists evs fs1,
    cleanup w s =
      (Ok tt, {| fs := fs1; trace := trace s ++ evs; temp_dir := temp_dir s |}) /\
    ((evs = [] /\ fs1 = fs s /\
      (temp_dir s = None \/
       exists t, temp_dir s = Some t /\ exists_ (fs s) t = false)) \/
     (exists t, temp_dir s = Some t /\
        evs = [Call RmtreeTemp;
               Log INFO ("Cleaned up temporary directory: " ++ path_str t)] /\
        exists_ fs1 t = false) \/
     (exists t e, temp_dir s = Some t /\
        evs = [Call RmtreeTemp;
               Log WARNING ("Failed to cleanup temporary directory "
                            ++ path_str t ++ ": " ++ exn_str e)])).
Proof.
  destruct s as [fs0 tr td]. exec.
  - exists [Call RmtreeTemp;
            Log WARNING ("Failed to cleanup temporary directory "
                         ++ path_str p ++ ": " ++ exn_str e)], fs0.
    rewrite <- app_assoc. split; [reflexivity|]. right; right. now exists p, e.
  - exists [Call RmtreeTemp;
            Log INFO ("Cleaned up temporary directory: " ++ path_str p)], n.
    rewrite <- app_assoc. split; [reflexivity|]. right; left. exists p.
    repeat split. destruct a. now apply rmtree_removes with fs0.
  - exists [Call RmtreeTemp;
            Log WARNING ("Failed to cleanup temporary directory "
                         ++ path_str p ++ ": " ++ exn_str e)], n.
    rewrite <- app_assoc. split; [reflexivity|]. right; right. now exists p, e.
  - exists [], fs0. rewrite app_nil_r. split; [reflexivity|]. left.
    repeat split. right. now exists p.
  - exists [], fs0. rewrite app_nil_r. split; [reflexivity|]. left.
    repeat split. now left.
Qed.


(** *** The [except] clause *)

Lemma on_error_eq e s :
  on_error e s =
    (Ok tt, {| fs := fs s;
               trace := trace s ++
                        [Log ERROR ("Error during installation: " ++ exn_str e);
                         Finished false ("Error: " ++ exn_str e)];
               temp_dir := temp_dir s |}).
Proof.
  destruct s as [fs0 tr td]. unfold on_error, bind, emit. simpl.
  now rewrite <- app_assoc.
Qed.

(** ** Cleanup of the workspace *)



(** ** The terminal outcome *)




(** When [item_type] is neither ["plugin"] nor ["patch"], the code
    after lines 62-63 does nothing at all: no call, no log line, no
    [progress] signal and no [finished] signal, and the file system is
    as it was. *)
Lemma unknown_kind_is_silent w self fs0 :
  item_type self <> "plugin" ->
  item_type self <> "patch" ->
  run w self (start fs0) = (Ok tt, start fs0) /\
  progress_of (trace (snd (run w self (start fs0)))) = [] /\
  finished_of (trace (snd (run w self (start fs0)))) = [].
Proof.
  intros Hplugin Hpatch.
  apply String.eqb_neq in Hplugin, Hpatch.
  assert (Hrun : run w self (start fs0) = (Ok tt, start fs0)).
  { unfold run, try_finally, try_except, run_body.
    now rewrite Hplugin, Hpatch. }
  now rewrite Hrun.
Qed.

(** ** When the source has nothing to offer *)

(** C4. When the archive fetch of a ["plugin"] run answers [None] or
    empty bytes, and when the patch list of a ["patch"] run is [None]
    or empty, [run] returns without an exception after exactly the
    signals below: outcome [(False, "Failed to download repository")],
    respectively [(False, "No patches found")].  [tempfile.mkdtemp] is
    not called, [temp_dir] stays unbound and the file system is
    untouched. *)
Theorem source_unavailable w self fs0 :
  let owner := login (owner (item_data self)) in
  let repo := name (item_data self) in
  (item_type self = "plugin" /\
   fault w DownloadRepositoryZip = None /\
   falsy_bytes (download_repository_zip w owner repo) = true)
  \/
  (item_type self = "patch" /\
   fault w GetPatchFiles = None /\
   (get_patch_files w owner repo = None \/
    get_patch_files w owner repo = Some [])) ->
  run w self (start fs0) =
    (Ok tt,
     {| fs := fs0;
        trace :=
          if String.eqb (item_type self) "plugin" then
            [Progress ("Downloading " ++ repo ++ "...");
             Call DownloadRepositoryZip;
             Finished false "Failed to download repository"]
          else
            [Call GetPatchFiles; Finished false "No patches found"];
        temp_dir := None |}).
Proof.
  intros o r [(Hk & Hf & Hz) | (Hk & Hf & Hp)].
  - unfold run, try_finally, try_except, run_body, run_plugin, bind, emit,
      pure_call, call, cleanup, get_temp_dir, get_fs, ret.
    rewrite Hk. simpl. rewrite Hf. fold o r. rewrite Hz. reflexivity.
  - unfold run, try_finally, try_except, run_body, run_patch, bind, emit,
      pure_call, call, cleanup, get_temp_dir, get_fs, ret.
    rewrite Hk. simpl. rewrite Hf. fold o r.
    destruct Hp as [-> | ->]; reflexivity.
Qed.

Lemma source_unavailable_witness :
  run silent_world (a_worker "plugin") (start a_disk) =
    (Ok tt,
     {| fs := a_disk;
        trace := [Progress "Downloading y...";
                  Call DownloadRepositoryZip;
                  Finished false "Failed to download repository"];
        temp_dir := None |}) /\
  run silent_world (a_worker "patch") (start a_disk) =
    (Ok tt,
     {| fs := a_disk;
        trace := [Call GetPatchFiles; Finished false "No patches found"];
        temp_dir := None |}).
Proof.
  split.
  - exact (source_unavailable silent_world (a_worker "plugin") a_disk
             (or_introl (conj eq_refl (conj eq_refl eq_refl)))).
  - exact (source_unavailable silent_world (a_worker "patch") a_disk
             (or_intror (conj eq_refl (conj eq_refl (or_intror eq_refl))))).
Defined.

(** ** The locator *)

Lemma find_plugin_root_direct fs0 base :
  exists_ fs0 (pjoin base "main.lua") = true ->
  exists_ fs0 (pjoin base "_meta.lua") = true ->
  find_plugin_root fs0 base = Some base.
Proof. intros H1 H2. unfold find_plugin_root. now rewrite H1, H2. Qed.

(** Without both entries at [base], the answer is the first directory
    reported by [os.walk] whose [files] hold both names. *)
Lemma find_plugin_root_walk fs0 base :
  exists_ fs0 (pjoin base "main.lua") && exists_ fs0 (pjoin base "_meta.lua")
    = false ->
  find_plugin_root fs0 base =
    option_map (fun t => fst (fst t)) (find has_marker_files (os_walk fs0 base)).
Proof.
  intros H. unfold find_plugin_root. rewrite H.
  now destruct (find has_marker_files (os_walk fs0 base)) as [[[root ds] fs1]|].
Qed.

Lemma find_first {A} (f : A -> bool) l x :
  find f l = Some x ->
  exists pre post,
    l = (pre ++ x :: post)%list /\ f x = true /\ forallb (fun y => negb (f y)) pre = true.
Proof.
  induction l as [|a l IH]; simpl; [discriminate|].
  destruct (f a) eqn:Hfa.
  - intros H; inversion H; subst. now exists [], l.
  - intros H. destruct (IH H) as (pre & post & -> & Hx & Hpre).
    exists (a :: pre), post. simpl. now rewrite Hfa.
Qed.

Lemma walk_entries_incl root c m es :
  assoc c es = Some m ->
  incl (walk (pjoin root c) m)
       ((fix walk_entries (l : list (string * node)) :=
           match l with
           | [] => []
           | (name, child) :: l' =>
               (walk (pjoin root name) child ++ walk_entries l')%list
           end) es).
Proof.
  induction es as [|[k v] es IH]; simpl; [discriminate|].
  destruct (String.eqb k c) eqn:E.
  - apply String.eqb_eq in E. subst k. intros H; inversion H; subst.
    apply incl_appl, incl_refl.
  - intros H. apply incl_appr. now apply IH.
Qed.

(** [os.walk] reports every directory of the tree. *)
Lemma walk_complete (rel : path) : forall (root : path) n es,
  lookup n rel = Some (Dir es) ->
  In ((root ++ rel)%list, dir_names es, file_names es) (walk root n).
Proof.
  induction rel as [|c rel IH]; intros root n es H; simpl in H.
  - inversion H; subst. rewrite app_nil_r. now left.
  - destruct n as [|es0]; [discriminate|].
    destruct (assoc c es0) as [m|] eqn:Ha; [|discriminate].
    right. apply (walk_entries_incl root c m es0 Ha).
    specialize (IH (pjoin root c) m es H).
    unfold pjoin in IH. now rewrite <- app_assoc in IH.
Qed.

(** The locator answers [None] only when no directory of the tree
    below [base] lists both marker files. *)
Lemma find_plugin_root_none fs0 base :
  find_plugin_root fs0 base = None ->
  forall rel es,
    lookup fs0 (base ++ rel) = Some (Dir es) ->
    name_in "main.lua" (file_names es) && name_in "_meta.lua" (file_names es)
      = false.
Proof.
  unfold find_plugin_root.
  destruct (exists_ fs0 (pjoin base "main.lua") &&
            exists_ fs0 (pjoin base "_meta.lua")); [discriminate|].
  destruct (find has_marker_files (os_walk fs0 base)) as [[[root ds] fs1]|] eqn:Hf;
    [discriminate|].
  intros _ rel es Hl. rewrite lookup_app in Hl. unfold os_walk in Hf.
  destruct (lookup fs0 base) as [n|]; [|discriminate].
  apply (find_none _ _ Hf _ (walk_complete rel base n es Hl)).
Qed.

(** C1. At a [base] whose entries [main.lua] and [_meta.lua] are
    directories, the locator answers [base] (the test of lines 32-34
    is [Path.exists]), although [os.walk] reports no regular file at
    all below [base] and hence no directory of the tree holds the two
    marker files. *)
Theorem find_plugin_root_accepts_marker_directories :
  find_plugin_root marker_dirs_disk ["base"] = Some ["base"] /\
  map (fun t => snd t) (os_walk marker_dirs_disk ["base"]) = [[]; []; []] /\
  find has_marker_files (os_walk marker_dirs_disk ["base"]) = None.
Proof. repeat split. Qed.

(** ** Installing twice *)

(** C5. Two installs in a row of the same package, whose archive holds
    [main.lua] and [_meta.lua] at its root: both succeed, the plugin
    root is the workspace itself each time, the install name is the
    workspace's generated name, and the install root ends with two
    plugin directories, the first install's files still in place. *)
Theorem release_archive_installed_twice :
  let self := a_worker "plugin" in
  let first := run (a_world release_archive "k3x9q_ab") self (start a_disk) in
  let second :=
    run (a_world release_archive "p0m7_zzq") self (start (fs (snd first))) in
  finished_of (trace (snd first)) = [(true, "y installed successfully!")] /\
  finished_of (trace (snd second)) = [(true, "y installed successfully!")] /\
  lookup (fs (snd second)) ["koreader"; "plugins"] =
    Some (Dir [("koreader_store_k3x9q_ab.koplugin",
                Dir [("y.zip", File "PK");
                     ("main.lua", File "return {}");
                     ("_meta.lua", File "return {}")]);
               ("koreader_store_p0m7_zzq.koplugin",
                Dir [("y.zip", File "PK");
                     ("main.lua", File "return {}");
                     ("_meta.lua", File "return {}")])]).
Proof. repeat split. Qed.

(** ** The order of the states *)

(** C9, the claim at a concrete run.  A repository archive installs
    with success; the workspace is removed after the [finished] signal,
    so the states of the trace step back in the order that puts
    CleaningUp ahead of the terminal state. *)
Lemma cleanup_before_outcome_fails :
  let s := snd (run (a_world repo_archive "k3x9q_ab") (a_worker "plugin")
                    (start a_disk)) in
  temp_dir s = Some ["tmp"; "koreader_store_k3x9q_ab"] /\
  phases (trace s) =
    [Downloading; Extracting; Extracting; Extracting; Extracting; Locating;
     Committing; Succeeded; CleaningUp] /\
  follows spec_rank (trace s) = false.
Proof. repeat split. Qed.

(** C7, the claim at a concrete run.  The patch list has two entries
    and no call is refused, but the install root does not exist:
    [patch_dir.mkdir(exist_ok=True)] raises, no file is written and
    the outcome is a failure. *)
Lemma patches_need_install_root :
  let w := a_world repo_archive "k3x9q_ab" in
  let s := snd (run w (a_worker "patch") (start bare_disk)) in
  get_patch_files w "x" "y" = Some two_patches /\
  (forall o, fault w o = None) /\
  finished_of (trace s) =
    [(false, "Error: [Errno 2] No such file or directory: '/koreader/patches'")] /\
  writes_of (trace s) = 0 /\
  fs s = bare_disk.
Proof. repeat split. Qed.

(** *** Lists of ranks *)

Lemma nondecreasing_cons x l :
  nondecreasing (x :: l) = forallb (Nat.leb x) (firstn 1 l) && nondecreasing l.
Proof. destruct l as [|y l]; simpl; [reflexivity|]. now rewrite andb_true_r. Qed.

(** Two sorted runs, the first below [k] and the second above, make a
    sorted run. *)
Lemma nondecreasing_app k l1 l2 :
  nondecreasing l1 = true ->
  forallb (fun x => Nat.leb x k) l1 = true ->
  nondecreasing l2 = true ->
  forallb (Nat.leb k) l2 = true ->
  nondecreasing (l1 ++ l2) = true.
Proof.
  intros H1 B1 H2 B2. induction l1 as [|x l1 IH]; [exact H2|].
  change ((x :: l1) ++ l2)%list with (x :: (l1 ++ l2))%list.
  rewrite nondecreasing_cons in *. simpl in B1.
  apply andb_true_iff in B1 as [Bx B1]. apply andb_true_iff in H1 as [Hx H1].
  rewrite (IH H1 B1), andb_true_r.
  destruct l1 as [|y l1]; [|exact Hx].
  destruct l2 as [|z l2]; [reflexivity|]. simpl in *.
  apply andb_true_iff in B2 as [Bz _]. rewrite andb_true_r.
  apply Nat.leb_le in Bx, Bz. apply Nat.leb_le. lia.
Qed.

Lemma forallb_weaken {A} (f g : A -> bool) l :
  (forall x, f x = true -> g x = true) ->
  forallb f l = true -> forallb g l = true.
Proof.
  intros Hfg. induction l as [|x l IH]; simpl; [reflexivity|].
  intros H. apply andb_true_iff in H as [Hx Hl].
  now rewrite (Hfg _ Hx), (IH Hl).
Qed.

Lemma constant_nondecreasing k l :
  forallb (Nat.eqb k) l = true -> nondecreasing l = true.
Proof.
  induction l as [|x l IH]; [reflexivity|]. simpl.
  intros H. apply andb_true_iff in H as [Hx Hl].
  destruct l as [|y l]; [reflexivity|].
  rewrite (IH Hl), andb_true_r. simpl in Hl.
  apply andb_true_iff in Hl as [Hy _].
  apply Nat.eqb_eq in Hx, Hy. subst. apply Nat.leb_refl.
Qed.

(** The calls of the patch loop are all made in Committing. *)
Lemma patch_calls_ranks evs :
  forallb is_patch_call evs = true ->
  forallb (Nat.eqb 5) (map code_rank (phases evs)) = true.
Proof.
  induction evs as [|ev evs IH]; [reflexivity|]. simpl.
  intros H. apply andb_true_iff in H as [Hev Hevs].
  destruct ev as [| | |[]]; try discriminate; simpl; auto.
Qed.

Lemma patch_calls_not_cleanup evs :
  forallb is_patch_call evs = true -> called RmtreeTemp evs = false.
Proof.
  induction evs as [|ev evs IH]; [reflexivity|]. simpl.
  intros H. apply andb_true_iff in H as [Hev Hevs].
  destruct ev as [| | |[]]; try discriminate; simpl; auto.
Qed.

(** *** Scanning for the outcome *)

Lemma no_cleanup_call seen tr :
  called RmtreeTemp tr = false -> outcome_precedes_cleanup seen tr = true.
Proof.
  revert seen. induction tr as [|ev tr IH]; intros seen; [reflexivity|].
  simpl. intros H. apply orb_false_iff in H as [Hev Htr].
  destruct ev as [| | |[]]; try discriminate; simpl; auto.
Qed.

Lemma outcome_precedes_cleanup_app seen a b :
  called RmtreeTemp a = false ->
  outcome_precedes_cleanup seen (a ++ b) =
  outcome_precedes_cleanup
    (seen || match finished_of a with [] => false | _ => true end) b.
Proof.
  revert seen. induction a as [|ev a IH]; intros seen.
  - intros _. simpl. now rewrite orb_false_r.
  - simpl. intros H. apply orb_false_iff in H as [Hev Ha].
    destruct ev as [| | |[]]; try discriminate; simpl; rewrite (IH _ Ha);
      try reflexivity.
    rewrite orb_true_r. now destruct (finished_of a).
Qed.

(** *** The states of the [try] body *)

Lemma run_plugin_states w self o rp s r s' :
  run_plugin w self o rp s = (r, s') -> exists evs, body_states r s s' evs.
Proof.
  destruct s as [fs0 tr td]. intros H.
  exec_in H.
  all: unfold body_states; cbv beta iota zeta delta [fs trace temp_dir].
  all: give_events.
  all: repeat split; try reflexivity.
  all: first [ now left | right; discriminate | right; exact I ].
Qed.

Lemma run_patch_states w self o rp s r s' :
  run_patch w self o rp s = (r, s') -> exists evs, body_states r s s' evs.
Proof.
  destruct s as [fs0 tr td]. intros H.
  exec_in H.
  all: unfold body_states; cbv beta iota zeta delta [fs trace temp_dir].
  all: give_events.
  all: try (repeat split; try reflexivity; now left).
  all: pose proof (patch_calls_ranks _ Hevs) as Hr;
    pose proof (patch_calls_not_cleanup _ Hevs) as Hc;
    rewrite ?phases_app, ?map_app, ?called_app, ?Hc; simpl.
  - repeat split; try (now left).
    + apply (nondecreasing_app 4 [1; 4]); try reflexivity.
      * apply (nondecreasing_app 5); try reflexivity.
        -- now apply constant_nondecreasing with 5.
        -- revert Hr. apply forallb_weaken. intros k Hk.
           apply Nat.eqb_eq in Hk. now subst.
      * rewrite forallb_app. simpl. rewrite andb_true_r.
        revert Hr. apply forallb_weaken. intros k Hk.
        apply Nat.eqb_eq in Hk. now subst.
    + rewrite forallb_app. simpl. rewrite andb_true_r.
      revert Hr. apply forallb_weaken. intros k Hk.
      apply Nat.eqb_eq in Hk. now subst.
  - repeat split; try (now left).
    + apply (nondecreasing_app 4 [1; 4]); try reflexivity.
      * now apply constant_nondecreasing with 5.
      * revert Hr. apply forallb_weaken. intros k Hk.
        apply Nat.eqb_eq in Hk. now subst.
    + revert Hr. apply forallb_weaken. intros k Hk.
      apply Nat.eqb_eq in Hk. now subst.
Qed.

Lemma run_body_states w self s r s' :
  run_body w self s = (r, s') -> exists evs, body_states r s s' evs.
Proof.
  unfold run_body.
  destruct (String.eqb (item_type self) "plugin");
    [apply run_plugin_states|].
  destruct (String.eqb (item_type self) "patch");
    [apply run_patch_states|].
  intros H; inversion H; subst. exists [].
  unfold body_states. rewrite app_nil_r. repeat split. now left.
Qed.

(** Cleanup after a trace that has reached its terminal state at most. *)
Lemma cleanup_after_outcome w sm :
  nondecreasing (map code_rank (phases (trace sm))) = true ->
  forallb (fun k => Nat.leb k 6) (map code_rank (phases (trace sm))) = true ->
  called RmtreeTemp (trace sm) = false ->
  temp_dir sm = None \/ finished_of (trace sm) <> [] ->
  follows code_rank (trace (snd (cleanup w sm))) = true /\
  outcome_precedes_cleanup false (trace (snd (cleanup w sm))) = true.
Proof.
  intros Hnd Hle Hnc Hfin.
  destruct (cleanup_cases w sm) as (evs & fs1 & -> & Hcases). simpl.
  assert (Hrm : forall lvl msg,
             temp_dir sm <> None ->
             follows code_rank (trace sm ++ [Call RmtreeTemp; Log lvl msg])
               = true /\
             outcome_precedes_cleanup false
               (trace sm ++ [Call RmtreeTemp; Log lvl msg]) = true).
  { intros lvl msg Htd. destruct Hfin as [Hnone|Hfin]; [contradiction|]. split.
    - unfold follows. rewrite phases_app, map_app.
      apply (nondecreasing_app 6); try assumption; reflexivity.
    - rewrite outcome_precedes_cleanup_app by exact Hnc.
      destruct (finished_of (trace sm)); [contradiction | reflexivity]. }
  destruct Hcases as [(-> & _) | [(t & Ht & -> & _) | (t & e & Ht & ->)]].
  - rewrite app_nil_r. split; [exact Hnd | now apply no_cleanup_call].
  - apply Hrm. congruence.
  - apply Hrm. congruence.
Qed.

(** C9, as the code has it.  In every run the states of the trace never
    step back in the order Downloading, Extracting, Locating, Staging,
    Committing, Succeeded or Failed, CleaningUp: no state is revisited,
    and every call of [shutil.rmtree(temp_dir)] comes after a
    [finished] signal. *)
Theorem outcome_then_cleanup w self fs0 :
  follows code_rank (trace (snd (run w self (start fs0)))) = true /\
  outcome_precedes_cleanup false (trace (snd (run w self (start fs0)))) = true.
Proof.
  unfold run, try_finally, try_except.
  destruct (run_body w self (start fs0)) as [r s1] eqn:Hb.
  destruct (run_body_states _ _ _ _ _ Hb) as (evs & Ht & Hnd & Hle & Hnc & Hfin).
  simpl in Ht, Hfin.
  assert (Hgoal : forall sm : state,
             nondecreasing (map code_rank (phases (trace sm))) = true ->
             forallb (fun k => Nat.leb k 6)
                     (map code_rank (phases (trace sm))) = true ->
             called RmtreeTemp (trace sm) = false ->
             temp_dir sm = None \/ finished_of (trace sm) <> [] ->
             forall ro : res unit,
             follows code_rank
               (trace (snd (let (r0, s2) := cleanup w sm in
                            match r0 with
                            | Ok _ => (ro, s2)
                            | Raise e => (Raise e, s2)
                            end))) = true /\
             outcome_precedes_cleanup false
               (trace (snd (let (r0, s2) := cleanup w sm in
                            match r0 with
                            | Ok _ => (ro, s2)
                            | Raise e => (Raise e, s2)
                            end))) = true).
  { intros sm H1 H2 H3 H4 ro.
    pose proof (cleanup_after_outcome w sm H1 H2 H3 H4) as Hc.
    destruct (cleanup w sm) as [[[]|e] s2]; exact Hc. }
  destruct r as [[]|e].
  - apply Hgoal; rewrite ?Ht; assumption.
  - rewrite on_error_eq. apply Hgoal; simpl; rewrite Ht.
    + rewrite phases_app, map_app. now apply (nondecreasing_app 5).
    + rewrite phases_app, map_app, forallb_app. simpl. rewrite andb_true_r.
      revert Hle. apply forallb_weaken. intros k Hk.
      apply Nat.leb_le in Hk. apply Nat.leb_le. lia.
    + rewrite called_app, Hnc. reflexivity.
    + right. rewrite finished_of_app. simpl.
      now destruct (finished_of evs).
Qed.

(** ** Plain names *)

Lemma split_slash_no_slash s : no_slash s = true -> split_slash s = [s].
Proof.
  induction s as [|c s IH]; simpl; [reflexivity|].
  destruct (Ascii.eqb c "/"); [discriminate|]. simpl.
  intros H. now rewrite (IH H).
Qed.

Lemma no_slash_app a b :
  no_slash a = true -> no_slash b = true -> no_slash (a ++ b) = true.
Proof.
  intros Ha Hb. induction a as [|c a IH]; simpl in *; [exact Hb|].
  apply andb_true_iff in Ha as [Hc Ha]. now rewrite Hc, (IH Ha).
Qed.

(** A plain name is joined as one component, and resolves to it
    whatever the file system holds. *)
Lemma resolve_plain fs0 joined base s :
  plain_name s = true ->
  is_absolute s = false /\ name_parts s = [s] /\
  resolve fs0 joined base [s] = Ok (pjoin base s).
Proof.
  unfold plain_name. intros H.
  apply andb_true_iff in H as [H Hdd]. apply andb_true_iff in H as [H Hd].
  apply andb_true_iff in H as [Hns He].
  apply negb_true_iff in Hdd, Hd, He.
  repeat split.
  - destruct s as [|c s]; [reflexivity|]. simpl in *.
    now destruct (Ascii.eqb c "/").
  - unfold name_parts. rewrite (split_slash_no_slash _ Hns). simpl.
    now rewrite He, Hd.
  - simpl. now rewrite Hdd.
Qed.

Lemma open_named_plain base s fs0 :
  plain_name s = true ->
  open_named base s fs0 =
  match open_w (pjoin base s) fs0 with
  | (Ok _, fs1) => (Ok (pjoin base s), fs1)
  | (Raise e, fs1) => (Raise e, fs1)
  end.
Proof.
  intros H.
  destruct (resolve_plain fs0 (pjoin base s) base s H) as (Ha & Hp & Hr).
  unfold open_named, open_w, missing_error. rewrite Ha, Hp.
  change (base ++ [s])%list with (pjoin base s). rewrite Hr.
  destruct (lookup fs0 (pjoin base s)) as [[|]|]; try reflexivity;
    destruct (put (pjoin base s) (File "") fs0); try reflexivity;
    now destruct (hits_file fs0 (pjoin base s)).
Qed.

(** [f"{repo}.zip"] is a plain name when [repo] has no slash. *)
Lemma zip_name_plain repo :
  no_slash repo = true -> plain_name (repo ++ ".zip") = true.
Proof.
  intros H. unfold plain_name.
  rewrite (no_slash_app repo ".zip" H eq_refl).
  destruct repo as [|a [|b [|c r]]]; simpl;
    repeat match goal with
      | |- context [Ascii.eqb ?x ?y] => destruct (Ascii.eqb x y)
      end; reflexivity.
Qed.

(** Under a plain name, read each [open] of the current path as the
    [open] of the joined path. *)
Ltac plain_opens Hplain :=
  repeat match goal with
    | H : open_named ?b ?n ?f = _ |- _ =>
        rewrite (open_named_plain b n f Hplain) in H;
        destruct (open_w (pjoin b n) f) as [[[]|?] ?] eqn:?;
        inversion H; subst; clear H
    end.

(** ** What a failed run leaves alone *)

(** Collect, call by call, what each call of the plugin branch leaves
    untouched outside the workspace [t], and that [t] is still there. *)
Ltac confine t :=
  repeat match goal with
    | H : mkdtemp _ _ = (Ok _, _) |- _ =>
        apply mkdtemp_ok in H; destruct H as (-> & ? & ? & ?)
    | H : mkdtemp _ _ = (Raise _, _) |- _ =>
        apply mkdtemp_raise in H; subst
    | H : open_w (pjoin t ?x) ?n = _, E : exists_ ?n t = true |- _ =>
        pose proof (open_w_outside t _ (is_prefix_app t [x]) _ _ _ H);
        pose proof (open_w_keeps t _ (is_prefix_app t [x]) _ _ _ E H);
        clear H
    | H : write (pjoin t ?x) _ ?n = _, E : exists_ ?n t = true |- _ =>
        pose proof (write_outside t _ (is_prefix_app t [x]) _ _ _ _ H);
        pose proof (write_keeps t _ (is_prefix_app t [x]) _ _ _ _ E H);
        clear H
    | H : extractall _ _ t ?n = _, E : exists_ ?n t = true |- _ =>
        destruct (extractall_confined _ _ _ _ _ _ E H); clear H
    | H : rmtree t ?n = _ |- _ =>
        pose proof (rmtree_outside t _ (is_prefix_refl t) _ _ _ H); clear H
    end.

Ltac chain :=
  first [ apply same_outside_refl
        | eassumption
        | eapply same_outside_trans; [eassumption | chain] ].

(** A ["plugin"] body whose repository name has no slash: as long as
    it calls neither [shutil.rmtree(target)] nor [shutil.copytree] it
    changes nothing outside the workspace; and it calls them only
    after announcing the installation, which it does for a located
    plugin root only, and then ends with no [finished] or with a
    success. *)
Lemma run_plugin_uncommitted w self o rp fs0 r s' :
  no_slash rp = true ->
  run_plugin w self o rp (start fs0) = (r, s') ->
  (called RmtreeTarget (trace s') || called Copytree (trace s') = false ->
   same_outside (mkdtemp_path w) fs0 (fs s')) /\
  (called RmtreeTarget (trace s') || called Copytree (trace s') = true ->
   name_in "Installing..." (progress_of (trace s')) = true /\
   (finished_of (trace s') = [] \/
    exists msg, finished_of (trace s') = [(true, msg)]) /\
   exists post, trace s' = (located_events rp ++ post)%list).
Proof.
  intros Hns H. pose proof (zip_name_plain rp Hns) as Hplain.
  revert H. exec; intros H; inversion H; subst; clear H;
    cbv beta iota zeta delta [fs trace temp_dir];
    (split; intros Hc; try discriminate Hc).
  all: try (split; [reflexivity|];
            split; [first [left; reflexivity | right; eexists; reflexivity]|];
            eexists; reflexivity).
  all: confine (mkdtemp_path w); plain_opens Hplain;
    confine (mkdtemp_path w); chain.
Qed.
(** ** Writing into a directory *)

Lemma put_succeeds p c x n es :
  lookup n p = Some (Dir es) -> exists n', put (pjoin p c) x n = Some n'.
Proof.
  unfold pjoin. revert n. induction p as [|d p IH]; intros n H; simpl in *.
  - inversion H; subst. destruct (assoc c es); eauto.
  - destruct n as [|es0]; [discriminate|].
    destruct (assoc d es0) as [m|]; [|discriminate].
    destruct (IH m H) as [m' ->]. eauto.
Qed.

Lemma put_child_keeps_dir p c x n n' es :
  lookup n p = Some (Dir es) -> put (pjoin p c) x n = Some n' ->
  exists es', lookup n' p = Some (Dir es').
Proof.
  unfold pjoin. revert n n'. induction p as [|d p IH]; intros n n' H Hp; simpl in *.
  - inversion H; subst. destruct (assoc c es); inversion Hp; eauto.
  - destruct n as [|es0]; [discriminate|].
    destruct (assoc d es0) as [m|] eqn:Ha; [|discriminate].
    destruct (put (p ++ [c]) x m) as [m'|] eqn:Hm; [|discriminate].
    inversion Hp; subst n'. simpl.
    rewrite (assoc_set_entry_eq _ _ _ _ Ha). now apply IH with m.
Qed.

(** [with open(dir / name, "w") as f: f.write(data)] in an existing
    directory, where [name] is not a sub-directory: the file holds
    [data] afterwards and its siblings are as before. *)
Lemma write_file_ok dir c data fs0 es :
  lookup fs0 dir = Some (Dir es) ->
  (forall es', lookup fs0 (pjoin dir c) <> Some (Dir es')) ->
  exists fs1 fs2,
    open_w (pjoin dir c) fs0 = (Ok tt, fs1) /\
    write (pjoin dir c) data fs1 = (Ok tt, fs2) /\
    lookup fs2 (pjoin dir c) = Some (File data) /\
    (exists es', lookup fs2 dir = Some (Dir es')) /\
    (forall c', String.eqb c c' = false ->
                lookup fs2 (pjoin dir c') = lookup fs0 (pjoin dir c')).
Proof.
  intros Hdir Hname.
  destruct (put_succeeds dir c (File "") fs0 es Hdir) as [fs1 Hp1].
  destruct (put_child_keeps_dir _ _ _ _ _ _ Hdir Hp1) as [es1 Hdir1].
  destruct (put_succeeds dir c (File data) fs1 es1 Hdir1) as [fs2 Hp2].
  exists fs1, fs2.
  assert (Hopen : open_w (pjoin dir c) fs0 = (Ok tt, fs1)).
  { unfold open_w. rewrite Hp1.
    destruct (lookup fs0 (pjoin dir c)) as [[|es']|] eqn:Hl; try reflexivity.
    now destruct (Hname es'). }
  assert (Hwrite : write (pjoin dir c) data fs1 = (Ok tt, fs2)).
  { unfold write. now rewrite (put_lookup _ _ _ _ Hp1), Hp2. }
  repeat split; try assumption.
  - exact (put_lookup _ _ _ _ Hp2).
  - exact (put_child_keeps_dir _ _ _ _ _ _ Hdir1 Hp2).
  - intros c' Hc.
    rewrite (put_frame _ _ _ _ _ Hp2 (comparable_siblings dir c c' Hc)).
    exact (put_frame _ _ _ _ _ Hp1 (comparable_siblings dir c c' Hc)).
Qed.

(** [patch_dir.mkdir(exist_ok=True)] below an existing directory,
    where [patches] is absent or a directory. *)
Lemma mkdir_patches_ok root c fs0 es :
  lookup fs0 root = Some (Dir es) ->
  (forall data, lookup fs0 (pjoin root c) <> Some (File data)) ->
  exists fs1 es1,
    path_mkdir_exist_ok (pjoin root c) fs0 = (Ok tt, fs1) /\
    lookup fs1 (pjoin root c) = Some (Dir es1) /\
    (forall n es',
       lookup fs1 (pjoin (pjoin root c) n) = Some (Dir es') ->
       lookup fs0 (pjoin (pjoin root c) n) = Some (Dir es')).
Proof.
  intros Hroot Hnot. unfold path_mkdir_exist_ok, os_mkdir.
  destruct (lookup fs0 (pjoin root c)) as [[data|es1]|] eqn:Hl.
  - now destruct (Hnot data).
  - exists fs0, es1. repeat split; auto.
  - destruct (put_succeeds root c (Dir []) fs0 es Hroot) as [fs1 Hp].
    rewrite Hp. exists fs1, []. repeat split.
    + exact (put_lookup _ _ _ _ Hp).
    + intros n es'. unfold pjoin at 1. rewrite lookup_app.
      rewrite (put_lookup _ _ _ _ Hp). discriminate.
Qed.

(** ** Installing patches *)

Lemma writes_of_app a b : writes_of (a ++ b) = writes_of a + writes_of b.
Proof. unfold writes_of. now rewrite filter_app, length_app. Qed.

Lemma final_text_in w p ps :
  In p ps -> exists t, final_text w (patch_name p) ps = Some t.
Proof.
  induction ps as [|q ps IH]; intros H; [destruct H|]. simpl.
  destruct (final_text w (patch_name p) ps) as [t|] eqn:E; [eauto|].
  destruct H as [-> | H]; [|destruct (IH H); discriminate].
  rewrite String.eqb_refl. eauto.
Qed.

Lemma final_text_none w n ps :
  (forall p, In p ps -> String.eqb (patch_name p) n = false) ->
  final_text w n ps = None.
Proof.
  induction ps as [|q ps IH]; intros H; [reflexivity|]. simpl.
  rewrite IH by (intros p Hp; apply H; now right).
  now rewrite (H q (or_introl eq_refl)).
Qed.

Section PatchLoop.

Variables (w : world) (dir : path).
Hypothesis Hget : forall j, fault w (RequestsGet j) = None.
Hypothesis Hopen : forall j, fault w (OpenPatch j) = None.
Hypothesis Hwrite : forall j, fault w (WritePatch j) = None.

(** When no call of the loop is refused, the directory exists, every
    patch name is a plain file name and none is that of a
    sub-directory, the loop returns having written one file per patch;
    a name of the list ends with the text of its last entry, any other
    name of the directory is as before. *)
Lemma install_patches_ok ps : forall i s es,
  lookup (fs s) dir = Some (Dir es) ->
  (forall p, In p ps -> plain_name (patch_name p) = true) ->
  (forall p, In p ps ->
     forall es', lookup (fs s) (pjoin dir (patch_name p)) <> Some (Dir es')) ->
  exists evs fs',
    install_patches w dir i ps s =
      (Ok tt, {| fs := fs'; trace := trace s ++ evs; temp_dir := temp_dir s |}) /\
    forallb is_patch_call evs = true /\
    writes_of evs = List.length ps /\
    (exists es', lookup fs' dir = Some (Dir es')) /\
    (forall n,
       lookup fs' (pjoin dir n) =
       match final_text w n ps with
       | Some t => Some (File t)
       | None => lookup (fs s) (pjoin dir n)
       end).
Proof.
  induction ps as [|p ps IH]; intros i [fs0 tr td] es Hdir Hplain Hnames;
    simpl in Hdir, Hnames.
  - exists [], fs0. simpl. rewrite app_nil_r. repeat split; eauto.
  - destruct (write_file_ok dir (patch_name p)
                (response_text w (download_url p)) fs0 es Hdir
                (Hnames p (or_introl eq_refl)))
      as (fs1 & fs2 & Ho & Hw & Hfile & [es2 Hdir2] & Hsib).
    assert (Hnames2 : forall q, In q ps ->
              forall es', lookup fs2 (pjoin dir (patch_name q)) <> Some (Dir es')).
    { intros q Hq es'.
      destruct (String.eqb (patch_name p) (patch_name q)) eqn:E.
      - apply String.eqb_eq in E. rewrite <- E, Hfile. discriminate.
      - rewrite (Hsib _ E). apply Hnames. now right. }
    destruct (IH (S i)
                {| fs := fs2;
                   trace := ((tr ++ [Call (RequestsGet i)])
                               ++ [Call (OpenPatch i)]) ++ [Call (WritePatch i)];
                   temp_dir := td |} es2 Hdir2
                (fun q Hq => Hplain q (or_intror Hq)) Hnames2)
      as (evs & fs' & Hrun & Hcalls & Hcount & Hdir' & Hfiles).
    simpl in Hrun, Hfiles.
    exists (Call (RequestsGet i) :: Call (OpenPatch i) :: Call (WritePatch i) :: evs),
           fs'.
    split; [|repeat split].
    + simpl. unfold bind, pure_call, call.
      cbv beta iota delta [fs trace temp_dir].
      rewrite Hget, Hopen,
        (open_named_plain dir (patch_name p) fs0 (Hplain p (or_introl eq_refl))),
        Ho, Hwrite, Hw, Hrun.
      now rewrite <- !app_assoc.
    + exact Hcalls.
    + change (writes_of (Call (RequestsGet i) :: Call (OpenPatch i)
                           :: Call (WritePatch i) :: evs))
        with (S (writes_of evs)).
      now rewrite Hcount.
    + exact Hdir'.
    + intros n. rewrite Hfiles. simpl.
      destruct (final_text w n ps) as [t|]; [reflexivity|].
      destruct (String.eqb (patch_name p) n) eqn:E.
      * apply String.eqb_eq in E. now rewrite <- E.
      * exact (Hsib n E).
Qed.

End PatchLoop.

(** C7, as the code has it.  In a ["patch"] run where the patch list
    has [n > 0] entries, no fetch raises, and moreover the install root
    is an existing directory in which [patches] is absent or a
    directory, every patch name is a plain file name (no slash, and not
    the empty name, [.] or [..]), no patch name is that of a
    sub-directory of [patches], and creating the directory, opening and
    writing the files are not refused: [run] returns, a file is written
    for each of the [n] entries, each patch name designates a file
    under [patches] holding the fetched text of the last entry of that
    name, and the one outcome is [(True, "{n} patch(es) installed!")]. *)
Theorem patches_installed w self fs0 ps es :
  item_type self = "patch" ->
  fault w GetPatchFiles = None ->
  get_patch_files w (login (owner (item_data self))) (name (item_data self))
    = Some ps ->
  ps <> [] ->
  (forall i, fault w (RequestsGet i) = None) ->
  fault w MkdirPatches = None ->
  (forall i, fault w (OpenPatch i) = None) ->
  (forall i, fault w (WritePatch i) = None) ->
  lookup fs0 (install_path self) = Some (Dir es) ->
  (forall data,
     lookup fs0 (pjoin (install_path self) "patches") <> Some (File data)) ->
  (forall p, In p ps -> plain_name (patch_name p) = true) ->
  (forall p, In p ps -> forall es',
     lookup fs0 (pjoin (pjoin (install_path self) "patches") (patch_name p))
       <> Some (Dir es')) ->
  fst (run w self (start fs0)) = Ok tt /\
  finished_of (trace (snd (run w self (start fs0)))) =
    [(true, str_of_nat (List.length ps) ++ " patch(es) installed!")] /\
  writes_of (trace (snd (run w self (start fs0)))) = List.length ps /\
  (forall p, In p ps ->
     exists t, final_text w (patch_name p) ps = Some t /\
       lookup (fs (snd (run w self (start fs0))))
              (pjoin (pjoin (install_path self) "patches") (patch_name p)) =
         Some (File t)).
Proof.
  intros Hk Hlist Hps Hne Hget Hmk Hopen Hwrite Hroot Hdir Hplain Hnames.
  destruct (mkdir_patches_ok _ "patches" fs0 es Hroot Hdir)
    as (fs1 & es1 & Hmkdir & Hdir1 & Hback).
  assert (Hnames1 : forall p, In p ps -> forall es',
            lookup fs1 (pjoin (pjoin (install_path self) "patches") (patch_name p))
              <> Some (Dir es')).
  { intros p Hp es' Hl. exact (Hnames p Hp es' (Hback _ _ Hl)). }
  destruct (install_patches_ok w (pjoin (install_path self) "patches")
              Hget Hopen Hwrite ps 0
              {| fs := fs1;
                 trace := [Call GetPatchFiles; Progress "Downloading patches...";
                           Call MkdirPatches];
                 temp_dir := None |} es1 Hdir1 Hplain Hnames1)
    as (evs & fs' & Hloop & Hcalls & Hcount & _ & Hfiles).
  assert (Hrun : run w self (start fs0) =
            (Ok tt,
             {| fs := fs';
                trace := ([Call GetPatchFiles; Progress "Downloading patches...";
                           Call MkdirPatches] ++ evs) ++
                         [Finished true (str_of_nat (List.length ps)
                                         ++ " patch(es) installed!")];
                temp_dir := None |})).
  { unfold run, try_finally, try_except, run_body. rewrite Hk.
    change (String.eqb "patch" "plugin") with false.
    change (String.eqb "patch" "patch") with true. cbv iota.
    unfold run_patch, bind, pure_call, call, emit, start.
    cbv beta iota delta [fs trace temp_dir].
    rewrite Hlist, Hps. destruct ps as [|p rest]; [contradiction|].
    rewrite Hmk, Hmkdir. simpl in Hloop |- *. rewrite Hloop. reflexivity. }
  rewrite Hrun. cbv beta iota delta [fst snd fs trace].
  repeat split.
  - rewrite !finished_of_app, (patch_calls_finished _ Hcalls). reflexivity.
  - rewrite !writes_of_app, Hcount. unfold writes_of. simpl. lia.
  - intros p Hp. destruct (final_text_in w p ps Hp) as [t Ht].
    exists t. split; [exact Ht|]. now rewrite Hfiles, Ht.
Qed.

Lemma patches_installed_witness :
  finished_of
    (trace (snd (run (a_world repo_archive "k3x9q_ab") (a_worker "patch")
                     (start a_disk)))) =
    [(true, "2 patch(es) installed!")] /\
  writes_of
    (trace (snd (run (a_world repo_archive "k3x9q_ab") (a_worker "patch")
                     (start a_disk)))) = 2.
Proof.
  assert (Hnames : forall p, In p two_patches -> forall es',
            lookup a_disk
              (pjoin (pjoin (install_path (a_worker "patch")) "patches")
                     (patch_name p)) <> Some (Dir es'))
    by (intros p _ es'; discriminate).
  assert (Hplain : forall p, In p two_patches -> plain_name (patch_name p) = true)
    by (intros p [<- | [<- | []]]; reflexivity).
  assert (Hdir : forall data,
            lookup a_disk (pjoin (install_path (a_worker "patch")) "patches")
              <> Some (File data))
    by (intros data; discriminate).
  assert (Hne : two_patches <> []) by discriminate.
  destruct (patches_installed
              (a_world repo_archive "k3x9q_ab") (a_worker "patch") a_disk
              two_patches [] eq_refl eq_refl eq_refl Hne
              (fun _ => eq_refl) eq_refl (fun _ => eq_refl) (fun _ => eq_refl)
              eq_refl Hdir Hplain Hnames)
    as (_ & Hfin & Hcount & _).
  split; [exact Hfin | exact Hcount].
Defined.

(** ** Replacing the install target *)

Lemma copy_node_id : forall n, copy_node n = n.
Proof.
  fix IH 1. intros [data|es]; [reflexivity|]. simpl. f_equal.
  induction es as [|[k v] es IHes]; [reflexivity|].
  now rewrite IH, IHes.
Qed.

(** A successful [shutil.copytree(src, dst)] leaves at [dst] what is
    listed at [src], and nothing else. *)
Lemma copytree_copies src dst fs0 fs1 :
  copytree src dst fs0 = (Ok tt, fs1) ->
  exists_ fs0 dst = false /\
  exists es, lookup fs0 src = Some (Dir es) /\ lookup fs1 dst = Some (Dir es).
Proof.
  unfold copytree. intros H.
  destruct (lookup fs0 src) as [[|es]|]; try discriminate.
  destruct (exists_ fs0 dst); [discriminate|].
  destruct (mkdirs dst fs0) as [fsm|]; [|discriminate].
  destruct (copies_into_itself fs0 src dst); [discriminate|].
  destruct (put dst (copy_node (Dir es)) fsm) as [fs2|] eqn:Hp; [|discriminate].
  inversion H; subst. split; [reflexivity|]. exists es. split; [reflexivity|].
  rewrite (put_lookup _ _ _ _ Hp). now rewrite copy_node_id.
Qed.

(** Lines 103-105: whatever directory stood at [target], after
    [shutil.rmtree(target)] and [shutil.copytree(plugin_dir, target)]
    the target lists what the plugin directory listed when the copy
    was made. *)
Lemma target_replaced plugin_dir target fs0 fs1 fs2 :
  exists_ fs0 target = true ->
  rmtree target fs0 = (Ok tt, fs1) ->
  copytree plugin_dir target fs1 = (Ok tt, fs2) ->
  exists es,
    lookup fs1 plugin_dir = Some (Dir es) /\ lookup fs2 target = Some (Dir es).
Proof.
  intros _ _ Hc. exact (proj2 (copytree_copies _ _ _ _ Hc)).
Qed.

(** A repository archive installed over an earlier installation of the
    same plugin: the target holds the files of the archive only. *)
Lemma repo_archive_replaces_target :
  let s := snd (run (a_world repo_archive "k3x9q_ab") (a_worker "plugin")
                    (start installed_disk)) in
  finished_of (trace s) = [(true, "y installed successfully!")] /\
  called RmtreeTarget (trace s) = true /\
  lookup (fs s) ["koreader"; "plugins"] =
    Some (Dir [("coolplugin.koplugin",
                Dir [("main.lua", File "return {}");
                     ("_meta.lua", File "return {}");
                     ("other.lua", File "-- other")])]).
Proof. repeat split. Qed.

(** ** The workspace and [temp_dir] *)

(** A ["plugin"] body either creates nothing and leaves [temp_dir]
    unbound, or binds [temp_dir] to the directory that
    [tempfile.mkdtemp] has just created. *)
Lemma run_plugin_workspace w self o rp fs0 r s' :
  run_plugin w self o rp (start fs0) = (r, s') ->
  (temp_dir s' = None /\ fs s' = fs0) \/
  (temp_dir s' = Some (mkdtemp_path w) /\
   exists_ fs0 (mkdtemp_path w) = false).
Proof.
  intros H. exec_in H.
  all: try (left; split; reflexivity).
  all: confine (mkdtemp_path w);
    first [ left; split; reflexivity
          | right; split; [reflexivity | assumption] ].
Qed.

(** Without a bound [temp_dir] the [finally] block changes nothing. *)
Lemma run_without_workspace w self fs0 :
  temp_dir (snd (try_except (run_body w self) on_error (start fs0))) = None ->
  fs (snd (run w self (start fs0))) =
  fs (snd (try_except (run_body w self) on_error (start fs0))).
Proof.
  unfold run, try_finally.
  destruct (try_except (run_body w self) on_error (start fs0)) as [r1 s1].
  simpl. intros Htd.
  destruct (cleanup_cases w s1) as (evs & fs1 & -> & Hcases). simpl.
  destruct Hcases as [(_ & -> & _) | [(t & Ht & _) | (t & e & Ht & _)]];
    congruence.
Qed.

(** A ["plugin"] run for which the temporary name is already taken
    leaves the file system as it was. *)
Lemma run_plugin_name_taken w self fs0 :
  item_type self = "plugin" ->
  exists_ fs0 (mkdtemp_path w) = true ->
  fs (snd (run w self (start fs0))) = fs0.
Proof.
  intros Hk Hex.
  assert (Hbody : temp_dir (snd (try_except (run_body w self) on_error
                                            (start fs0))) = None /\
                  fs (snd (try_except (run_body w self) on_error
                                      (start fs0))) = fs0).
  { unfold try_except, run_body. rewrite Hk.
    change (String.eqb "plugin" "plugin") with true. cbv iota.
    destruct (run_plugin w self (login (owner (item_data self)))
                (name (item_data self)) (start fs0)) as [r s'] eqn:Hrun.
    destruct (run_plugin_workspace _ _ _ _ _ _ _ Hrun)
      as [[Htd Hfs] | [_ Hfresh]]; [|congruence].
    destruct r as [[]|e]; [now split|].
    rewrite on_error_eq. now split. }
  destruct Hbody as [Htd Hfs].
  now rewrite (run_without_workspace w self fs0 Htd).
Qed.

(** ** More on the locator *)

Lemma walk_under : forall n (root : path) t,
  In t (walk root n) -> is_prefix root (fst (fst t)) = true.
Proof.
  fix IH 1. intros [data|es] root t Hin; [contradiction|].
  destruct Hin as [<- | Hin]; [apply is_prefix_refl|].
  revert Hin. induction es as [|[k c] es IHes]; [contradiction|].
  intros Hin. apply in_app_or in Hin as [Hin | Hin]; [|exact (IHes Hin)].
  apply is_prefix_trans with (pjoin root k); [apply is_prefix_app|].
  exact (IH c _ t Hin).
Qed.

(** X1. Whatever [find_plugin_root(base)] returns is [base] or lies
    below [base]. *)
Theorem find_plugin_root_under fs0 base d :
  find_plugin_root fs0 base = Some d -> is_prefix base d = true.
Proof.
  unfold find_plugin_root, os_walk.
  destruct (exists_ fs0 (pjoin base "main.lua") &&
            exists_ fs0 (pjoin base "_meta.lua")).
  - intros H; inversion H; subst. apply is_prefix_refl.
  - destruct (lookup fs0 base) as [n|]; [|discriminate].
    destruct (find has_marker_files (walk base n)) as [[[root ds] fs1]|] eqn:Hf;
      [|discriminate].
    intros H; inversion H; subst.
    apply find_some in Hf as [Hin _].
    exact (walk_under n base _ Hin).
Qed.

Lemma find_plugin_root_under_witness :
  find_plugin_root
    (Dir [("b", Dir [("p", Dir [("main.lua", File ""); ("_meta.lua", File "")])])])
    ["b"] = Some ["b"; "p"] /\
  is_prefix ["b"] ["b"; "p"] = true.
Proof.
  split; [reflexivity|].
  exact (find_plugin_root_under
           (Dir [("b", Dir [("p", Dir [("main.lua", File "");
                                       ("_meta.lua", File "")])])])
           ["b"] ["b"; "p"] eq_refl).
Defined.

Lemma assoc_name_in k es m :
  assoc k es = Some m -> name_in k (map fst es) = true.
Proof.
  induction es as [|[k' v] es IH]; simpl; [discriminate|].
  rewrite (String.eqb_sym k k').
  destruct (String.eqb k' k); [reflexivity|]. exact IH.
Qed.

(** In a well-formed tree, what [os.walk] reports for a directory is
    the listing that the reported path resolves to. *)
Lemma walk_sound : forall n (root : path) t,
  unique_names n = true ->
  In t (walk root n) ->
  exists rel es,
    fst (fst t) = (root ++ rel)%list /\
    lookup n rel = Some (Dir es) /\
    snd (fst t) = dir_names es /\ snd t = file_names es.
Proof.
  fix IH 1. intros [data|es] root t Hu Hin; [contradiction|].
  simpl in Hu. apply andb_true_iff in Hu as [Hd Hall].
  destruct Hin as [<- | Hin].
  { exists [], es. rewrite app_nil_r. auto. }
  assert (Hinner :
            exists k m rel es0,
              assoc k es = Some m /\
              fst (fst t) = (root ++ k :: rel)%list /\
              lookup m rel = Some (Dir es0) /\
              snd (fst t) = dir_names es0 /\ snd t = file_names es0).
  { revert Hd Hall Hin. induction es as [|[k c] es IHes]; [contradiction|].
    simpl. intros Hd Hall Hin.
    apply andb_true_iff in Hd as [Hk Hd].
    apply andb_true_iff in Hall as [Hc Hall].
    apply in_app_or in Hin as [Hin | Hin].
    - destruct (IH c _ t Hc Hin) as (rel & es0 & Hp & Hl & Hds & Hfs).
      exists k, c, rel, es0. rewrite String.eqb_refl.
      repeat split; try assumption.
      rewrite Hp. unfold pjoin. now rewrite <- app_assoc.
    - destruct (IHes Hd Hall Hin) as (k' & m & rel & es0 & Ha & Hrest).
      exists k', m, rel, es0. split; [|exact Hrest].
      destruct (String.eqb k k') eqn:E; [|exact Ha].
      apply String.eqb_eq in E. subst k'.
      rewrite (assoc_name_in _ _ _ Ha) in Hk. discriminate. }
  destruct Hinner as (k & m & rel & es0 & Ha & Hp & Hl & Hds & Hfs).
  exists (k :: rel), es0. simpl. rewrite Ha. auto.
Qed.

Lemma unique_names_assoc c es m :
  unique_names (Dir es) = true -> assoc c es = Some m -> unique_names m = true.
Proof.
  simpl. intros H. apply andb_true_iff in H as [_ Hall]. revert Hall.
  induction es as [|[k v] es IH]; simpl; [discriminate|].
  intros Hall. apply andb_true_iff in Hall as [Hv Hall].
  destruct (String.eqb k c).
  - intros Ha; inversion Ha; subst. exact Hv.
  - exact (IH Hall).
Qed.

Lemma unique_names_lookup p : forall n m,
  unique_names n = true -> lookup n p = Some m -> unique_names m = true.
Proof.
  induction p as [|c p IH]; intros n m Hu Hl; simpl in Hl.
  - now inversion Hl; subst.
  - destruct n as [|es]; [discriminate|].
    destruct (assoc c es) as [k|] eqn:Ha; [|discriminate].
    exact (IH k m (unique_names_assoc _ _ _ Hu Ha) Hl).
Qed.

(** An existing entry [dir / name] means that [dir] is a directory
    listing [name]. *)
Lemma exists_entry fs0 dir name :
  exists_ fs0 (pjoin dir name) = true ->
  exists es, lookup fs0 dir = Some (Dir es) /\
             name_in name (map fst es) = true.
Proof.
  unfold exists_, pjoin. rewrite lookup_app.
  destruct (lookup fs0 dir) as [[data|es]|]; try discriminate.
  simpl. destruct (assoc name es) as [m|] eqn:Ha; [|discriminate].
  intros _. exists es. split; [reflexivity|].
  exact (assoc_name_in _ _ _ Ha).
Qed.

Lemma name_in_file_names x es :
  name_in x (file_names es) = true -> name_in x (map fst es) = true.
Proof.
  unfold file_names, name_in.
  induction es as [|[k v] es IH]; simpl; [discriminate|].
  destruct (negb (is_dir v)); simpl.
  - destruct (String.eqb x k); [reflexivity | exact IH].
  - intros H. rewrite (IH H). apply orb_true_r.
Qed.

(** X2. On a file system whose directories list each name once, the
    path that [find_plugin_root(base)] returns resolves to a directory
    with entries called [main.lua] and [_meta.lua]; unless it is
    [base] itself, both are regular files. *)
Theorem find_plugin_root_sound fs0 base d :
  unique_names fs0 = true ->
  find_plugin_root fs0 base = Some d ->
  exists es,
    lookup fs0 d = Some (Dir es) /\
    name_in "main.lua" (map fst es) = true /\
    name_in "_meta.lua" (map fst es) = true /\
    (d = base \/
     (name_in "main.lua" (file_names es) = true /\
      name_in "_meta.lua" (file_names es) = true)).
Proof.
  intros Hu. unfold find_plugin_root.
  destruct (exists_ fs0 (pjoin base "main.lua")) eqn:E1;
    [destruct (exists_ fs0 (pjoin base "_meta.lua")) eqn:E2|]; simpl.
  - intros H; inversion H; subst.
    destruct (exists_entry _ _ _ E1) as (es & Hl & H1).
    destruct (exists_entry _ _ _ E2) as (es' & Hl' & H2).
    assert (es' = es) by congruence. subst es'.
    exists es. auto.
  - unfold os_walk. destruct (lookup fs0 base) as [n|] eqn:Hb; [|discriminate].
    destruct (find has_marker_files (walk base n)) as [[[root ds] files]|] eqn:Hf;
      [|discriminate].
    intros H; inversion H; subst.
    apply find_some in Hf as [Hin Hm].
    destruct (walk_sound n base _ (unique_names_lookup _ _ _ Hu Hb) Hin)
      as (rel & es & Hp & Hl & _ & Hfs).
    simpl in Hp, Hfs. subst d files.
    unfold has_marker_files in Hm. simpl in Hm.
    apply andb_true_iff in Hm as [H1 H2].
    exists es. rewrite lookup_app, Hb.
    repeat split; auto using name_in_file_names.
  - unfold os_walk. destruct (lookup fs0 base) as [n|] eqn:Hb; [|discriminate].
    destruct (find has_marker_files (walk base n)) as [[[root ds] files]|] eqn:Hf;
      [|discriminate].
    intros H; inversion H; subst.
    apply find_some in Hf as [Hin Hm].
    destruct (walk_sound n base _ (unique_names_lookup _ _ _ Hu Hb) Hin)
      as (rel & es & Hp & Hl & _ & Hfs).
    simpl in Hp, Hfs. subst d files.
    unfold has_marker_files in Hm. simpl in Hm.
    apply andb_true_iff in Hm as [H1 H2].
    exists es. rewrite lookup_app, Hb.
    repeat split; auto using name_in_file_names.
Qed.

Lemma find_plugin_root_sound_witness :
  unique_names installed_disk = true /\
  exists es,
    lookup installed_disk ["koreader"; "plugins"; "coolplugin.koplugin"]
      = Some (Dir es) /\
    name_in "main.lua" (map fst es) = true.
Proof.
  split; [reflexivity|].
  destruct (find_plugin_root_sound installed_disk ["koreader"]
              ["koreader"; "plugins"; "coolplugin.koplugin"] eq_refl eq_refl)
    as (es & Hl & H1 & _).
  exists es. now split.
Defined.

(** X3. When [base] lacks one of the two entries and the locator
    returns [d], [d] is reported by [os.walk(base)] with both marker
    files, and every directory reported before it lacks one: the first
    match of the top-down walk wins. *)
Theorem find_plugin_root_first_match fs0 base d :
  exists_ fs0 (pjoin base "main.lua") && exists_ fs0 (pjoin base "_meta.lua")
    = false ->
  find_plugin_root fs0 base = Some d ->
  exists pre ds files post,
    os_walk fs0 base = (pre ++ (d, ds, files) :: post)%list /\
    name_in "main.lua" files && name_in "_meta.lua" files = true /\
    forallb (fun t => negb (has_marker_files t)) pre = true.
Proof.
  intros Hb. rewrite (find_plugin_root_walk _ _ Hb).
  destruct (find has_marker_files (os_walk fs0 base)) as [[[root ds] files]|] eqn:Hf;
    [|discriminate].
  simpl. intros H; inversion H; subst.
  destruct (find_first _ _ _ Hf) as (pre & post & Hl & Hm & Hpre).
  now exists pre, ds, files, post.
Qed.

Lemma find_plugin_root_first_match_witness :
  let disk :=
    Dir [("b", Dir [("a", Dir [("main.lua", File "")]);
                    ("p", Dir [("main.lua", File ""); ("_meta.lua", File "")]);
                    ("z", Dir [("main.lua", File ""); ("_meta.lua", File "")])])] in
  find_plugin_root disk ["b"] = Some ["b"; "p"] /\
  exists pre ds files post,
    os_walk disk ["b"] = (pre ++ (["b"; "p"], ds, files) :: post)%list /\
    forallb (fun t => negb (has_marker_files t)) pre = true.
Proof.
  split; [reflexivity|].
  destruct (find_plugin_root_first_match
              (Dir [("b", Dir [("a", Dir [("main.lua", File "")]);
                               ("p", Dir [("main.lua", File "");
                                          ("_meta.lua", File "")]);
                               ("z", Dir [("main.lua", File "");
                                          ("_meta.lua", File "")])])])
              ["b"] ["b"; "p"] eq_refl eq_refl)
    as (pre & ds & files & post & Hw & _ & Hpre).
  now exists pre, ds, files, post.
Defined.

(** X4. On a file system whose directories list each name once,
    [find_plugin_root(base)] returns [None] exactly when [base] lacks
    one of the two entries and no directory at or below [base] lists
    both [main.lua] and [_meta.lua] as regular files. *)
Theorem find_plugin_root_none_iff fs0 base :
  unique_names fs0 = true ->
  (find_plugin_root fs0 base = None <->
   exists_ fs0 (pjoin base "main.lua") && exists_ fs0 (pjoin base "_meta.lua")
     = false /\
   forall rel es,
     lookup fs0 (base ++ rel) = Some (Dir es) ->
     name_in "main.lua" (file_names es) && name_in "_meta.lua" (file_names es)
       = false).
Proof.
  intros Hu. split.
  - intros Hnone. split; [|exact (find_plugin_root_none _ _ Hnone)].
    unfold find_plugin_root in Hnone.
    destruct (exists_ fs0 (pjoin base "main.lua") &&
              exists_ fs0 (pjoin base "_meta.lua")); [discriminate | reflexivity].
  - intros [Hb Hall].
    destruct (find_plugin_root fs0 base) as [d|] eqn:Hf; [|reflexivity].
    destruct (find_plugin_root_first_match _ _ _ Hb Hf)
      as (pre & ds & files & post & Hw & Hm & _).
    unfold os_walk in Hw. destruct (lookup fs0 base) as [n|] eqn:Hl.
    + assert (Hin : In (d, ds, files) (walk base n))
        by (rewrite Hw; apply in_elt).
      destruct (walk_sound n base _ (unique_names_lookup _ _ _ Hu Hl) Hin)
        as (rel & es & Hp & Hlk & _ & Hfs).
      simpl in Hp, Hfs. subst d files.
      assert (Hes : lookup fs0 (base ++ rel) = Some (Dir es))
        by (now rewrite lookup_app, Hl).
      rewrite (Hall rel es Hes) in Hm. discriminate.
    + now destruct pre.
Qed.

Lemma find_plugin_root_none_iff_witness :
  unique_names a_disk = true /\ find_plugin_root a_disk ["koreader"] = None.
Proof.
  split; [reflexivity|].
  apply (find_plugin_root_none_iff a_disk ["koreader"] eq_refl).
  split; [reflexivity|].
  intros [|c rel] es; simpl; [|discriminate].
  intros H; inversion H; subst. reflexivity.
Defined.



(** ** The order of the signals *)

Lemma no_signal_after_finished_app seen a b :
  no_signal_after_finished seen (a ++ b) =
  no_signal_after_finished seen a &&
  no_signal_after_finished (seen || has_finished a) b.
Proof.
  revert seen. induction a as [|ev a IH]; intros seen.
  - simpl. now rewrite orb_false_r.
  - destruct ev as [msg|ok msg|lvl msg|o]; simpl; rewrite IH.
    + unfold has_finished. simpl. now rewrite andb_assoc.
    + unfold has_finished. simpl. rewrite orb_true_r.
      now rewrite andb_assoc.
    + reflexivity.
    + reflexivity.
Qed.

Lemma progress_of_app a b :
  progress_of (a ++ b) = (progress_of a ++ progress_of b)%list.
Proof. apply flat_map_app. Qed.

Lemma patch_calls_no_signal evs seen :
  forallb is_patch_call evs = true ->
  no_signal_after_finished seen evs = true /\ progress_of evs = [] /\
  has_finished evs = false.
Proof.
  unfold has_finished.
  induction evs as [|ev evs IH]; [now repeat split|]. simpl.
  intros H. apply andb_true_iff in H as [Hev Hevs].
  destruct ev as [| | |[]]; try discriminate; simpl; auto.
Qed.

(** What the ["plugin"] branch emits: [progress] messages in the order
    of the source, each at most once; a single [finished] at the very
    end when it returns, none when it raises; and a success only after
    all four messages. *)
Lemma run_plugin_signals w self o rp s r s' :
  run_plugin w self o rp s = (r, s') ->
  exists evs,
    trace s' = (trace s ++ evs)%list /\
    no_signal_after_finished false evs = true /\
    (exists rest, plugin_progress rp = (progress_of evs ++ rest)%list) /\
    (forall msg, In (true, msg) (finished_of evs) ->
       progress_of evs = plugin_progress rp /\
       msg = if is_update self then rp ++ " updated successfully!"
             else rp ++ " installed successfully!") /\
    match r with Raise _ => finished_of evs = [] | Ok _ => True end.
Proof.
  destruct s as [fs0 tr td]. intros H.
  exec_in H.
  all: give_events.
  all: split; [reflexivity|].
  all: split; [eexists; reflexivity|].
  all: split; [|try reflexivity; exact I].
  all: simpl; intros msg Hin;
    repeat match goal with
      | H : _ \/ _ |- _ => destruct H
      | H : False |- _ => destruct H
      | H : (_, _) = (_, _) |- _ => inversion H; subst; clear H
      end; auto.
Qed.

Lemma run_patch_signals w self o rp s r s' :
  run_patch w self o rp s = (r, s') ->
  exists evs,
    trace s' = (trace s ++ evs)%list /\
    no_signal_after_finished false evs = true /\
    (exists rest, ["Downloading patches..."] = (progress_of evs ++ rest)%list) /\
    match r with Raise _ => finished_of evs = [] | Ok _ => True end.
Proof.
  destruct s as [fs0 tr td]. intros H.
  exec_in H.
  all: give_events.
  all: try (split; [reflexivity|]; split; [eexists; reflexivity|];
            try reflexivity; exact I).
  all: pose proof (fun seen => proj1 (patch_calls_no_signal _ seen Hevs)) as Hn;
    destruct (patch_calls_no_signal _ false Hevs) as (_ & Hp & Hf);
    pose proof (patch_calls_finished _ Hevs) as Hq;
    repeat (rewrite ?no_signal_after_finished_app, ?progress_of_app,
              ?finished_of_app, ?Hn, ?Hp, ?Hf, ?Hq;
            unfold has_finished; simpl; rewrite ?Hq).
  all: split; [reflexivity|]; split; [eexists; reflexivity|];
    try reflexivity; exact I.
Qed.

(** The trace of [run]: what the body of the [try] left, what the
    [except] clause adds when the body raised, and what the [finally]
    block adds, which is nothing or the removal of the workspace and a
    log line. *)
Lemma run_decompose w self fs0 :
  fst (run w self (start fs0)) = Ok tt /\
  exists evs_c,
    trace (snd (run w self (start fs0))) =
      (trace (snd (run_body w self (start fs0))) ++
       handler_events (fst (run_body w self (start fs0))) ++ evs_c)%list /\
    (evs_c = [] \/ exists lvl msg, evs_c = [Call RmtreeTemp; Log lvl msg]).
Proof.
  unfold run, try_finally, try_except.
  destruct (run_body w self (start fs0)) as [[[]|e] s1];
    cbv beta iota delta [fst snd handler_events].
  - destruct (cleanup_cases w s1) as (evs & fs1 & -> & Hcases). simpl.
    split; [reflexivity|]. exists evs. split; [reflexivity|].
    destruct Hcases as [(-> & _) | [(t & _ & -> & _) | (t & e & _ & ->)]]; eauto.
  - rewrite on_error_eq.
    match goal with |- context [cleanup w ?s] =>
      destruct (cleanup_cases w s) as (evs & fs1 & -> & Hcases) end.
    simpl. split; [reflexivity|]. exists evs.
    split; [now rewrite <- app_assoc|].
    destruct Hcases as [(-> & _) | [(t & _ & -> & _) | (t & e' & _ & ->)]]; eauto.
Qed.

Lemma run_body_signals w self fs0 :
  no_signal_after_finished false (trace (snd (run_body w self (start fs0))))
    = true /\
  (exists rest,
     (if String.eqb (item_type self) "plugin"
      then plugin_progress (name (item_data self))
      else if String.eqb (item_type self) "patch"
           then ["Downloading patches..."]
           else []) =
     (progress_of (trace (snd (run_body w self (start fs0)))) ++ rest)%list) /\
  match fst (run_body w self (start fs0)) with
  | Raise _ => finished_of (trace (snd (run_body w self (start fs0)))) = []
  | Ok _ => True
  end.
Proof.
  unfold run_body.
  destruct (String.eqb (item_type self) "plugin").
  - destruct (run_plugin w self _ _ (start fs0)) as [r s1] eqn:Hrun.
    destruct (run_plugin_signals _ _ _ _ _ _ _ Hrun)
      as (evs & Ht & Hn & Hp & _ & Hf).
    simpl in Ht |- *. rewrite Ht. auto.
  - destruct (String.eqb (item_type self) "patch").
    + destruct (run_patch w self _ _ (start fs0)) as [r s1] eqn:Hrun.
      destruct (run_patch_signals _ _ _ _ _ _ _ Hrun)
        as (evs & Ht & Hn & Hp & Hf).
      simpl in Ht |- *. rewrite Ht. auto.
    + simpl. repeat split. now exists [].
Qed.

(** X6. In every run, once [finished] has been emitted no further
    signal follows: every [progress] comes before it and there is no
    second [finished]. *)
Theorem finished_is_terminal w self fs0 :
  no_signal_after_finished false (trace (snd (run w self (start fs0)))) = true.
Proof.
  destruct (run_decompose w self fs0) as (_ & evs_c & -> & Hc).
  destruct (run_body_signals w self fs0) as (Hn & _ & Hf).
  assert (Hquiet : forall seen, no_signal_after_finished seen evs_c = true).
  { intros seen.
    destruct Hc as [-> | (lvl & msg & ->)]; reflexivity. }
  rewrite no_signal_after_finished_app, Hn. simpl.
  destruct (fst (run_body w self (start fs0))) as [[]|e]; simpl.
  - apply Hquiet.
  - unfold has_finished. rewrite Hf. apply Hquiet.
Qed.

(** X7. The [progress] messages of a run are an initial part of the
    fixed list of its branch, in order and without repetition: the
    four messages of lines 66, 80, 84 and 100 for a ["plugin"],
    ["Downloading patches..."] for a ["patch"], and the empty list for
    any other kind, which therefore emits none. *)
Theorem progress_in_order w self fs0 :
  exists rest,
    (if String.eqb (item_type self) "plugin"
     then plugin_progress (name (item_data self))
     else if String.eqb (item_type self) "patch"
          then ["Downloading patches..."]
          else []) =
    (progress_of (trace (snd (run w self (start fs0)))) ++ rest)%list.
Proof.
  destruct (run_decompose w self fs0) as (_ & evs_c & -> & Hc).
  destruct (run_body_signals w self fs0) as (_ & (rest & Hp) & _).
  exists rest. rewrite Hp, !progress_of_app.
  assert (He : progress_of
                 (handler_events (fst (run_body w self (start fs0)))) = [])
    by (now destruct (fst (run_body w self (start fs0)))).
  assert (Hq : progress_of evs_c = [])
    by (destruct Hc as [-> | (lvl & msg & ->)]; reflexivity).
  now rewrite He, Hq, !app_nil_r.
Qed.

(** X8. A ["plugin"] run reports success only after all four
    [progress] messages, and the message of the success is
    ["{repo} updated successfully!"] when [is_update] is set and
    ["{repo} installed successfully!"] otherwise. *)
Theorem plugin_success_message w self fs0 msg :
  item_type self = "plugin" ->
  finished_of (trace (snd (run w self (start fs0)))) = [(true, msg)] ->
  progress_of (trace (snd (run w self (start fs0)))) =
    plugin_progress (name (item_data self)) /\
  msg = if is_update self
        then name (item_data self) ++ " updated successfully!"
        else name (item_data self) ++ " installed successfully!".
Proof.
  intros Hk.
  destruct (run_decompose w self fs0) as (_ & evs_c & -> & Hc).
  assert (Hqf : finished_of evs_c = [])
    by (destruct Hc as [-> | (lvl & m & ->)]; reflexivity).
  assert (Hqp : progress_of evs_c = [])
    by (destruct Hc as [-> | (lvl & m & ->)]; reflexivity).
  rewrite !finished_of_app, !progress_of_app, Hqf, Hqp, !app_nil_r.
  unfold run_body. rewrite Hk.
  change (String.eqb "plugin" "plugin") with true. cbv iota.
  destruct (run_plugin w self _ _ (start fs0)) as [r s1] eqn:Hrun.
  destruct (run_plugin_signals _ _ _ _ _ _ _ Hrun)
    as (evs & Ht & _ & _ & Hs & Hf).
  simpl in Ht |- *. rewrite Ht.
  destruct r as [[]|e]; simpl.
  - rewrite !app_nil_r. intros Hfin. apply Hs. rewrite Hfin. now left.
  - rewrite Hf. discriminate.
Qed.

Lemma plugin_success_message_witness :
  finished_of
    (trace (snd (run (a_world repo_archive "k3x9q_ab") (a_worker "plugin")
                     (start a_disk)))) =
    [(true, "y installed successfully!")] /\
  progress_of
    (trace (snd (run (a_world repo_archive "k3x9q_ab") (a_worker "plugin")
                     (start a_disk)))) =
    ["Downloading y..."; "Extracting..."; "Analyzing plugin structure...";
     "Installing..."].
Proof.
  split; [reflexivity|].
  exact (proj1 (plugin_success_message
                  (a_world repo_archive "k3x9q_ab") (a_worker "plugin") a_disk
                  "y installed successfully!" eq_refl eq_refl)).
Defined.

(** ** What a plugin run changes *)

Lemma copytree_outside src dst fs0 r fs1 :
  copytree src dst fs0 = (r, fs1) -> same_outside dst fs0 fs1.
Proof.
  unfold copytree. intros H.
  destruct (lookup fs0 src) as [[|es]|];
    try (inversion H; apply same_outside_refl).
  destruct (exists_ fs0 dst); [inversion H; apply same_outside_refl|].
  destruct (mkdirs dst fs0) as [fsm|] eqn:Hm;
    [|inversion H; apply same_outside_refl].
  assert (Hout : same_outside dst fs0 fsm)
    by (intros q Hq; exact (mkdirs_frame _ _ _ _ Hm Hq)).
  destruct (copies_into_itself fs0 src dst); [now inversion H; subst|].
  destruct (put dst (copy_node (Dir es)) fsm) as [fs2|] eqn:Hp;
    inversion H; subst; [|exact Hout].
  apply same_outside_trans with fsm; [exact Hout|].
  intros q Hq. exact (put_frame _ _ _ _ _ Hp Hq).
Qed.

(** The [finally] block changes nothing outside the workspace. *)
Lemma cleanup_outside w s t :
  temp_dir s = None \/ temp_dir s = Some t ->
  same_outside t (fs s) (fs (snd (cleanup w s))).
Proof.
  destruct s as [fs0 tr td]. simpl. intros Htd.
  destruct (cleanup w {| fs := fs0; trace := tr; temp_dir := td |})
    as [r s'] eqn:H.
  revert H. exec; intros H; inversion H; subst; simpl;
    try apply same_outside_refl;
    destruct Htd as [Htd | Htd]; try discriminate;
    inversion Htd; subst;
    eapply (rmtree_outside _ _ (is_prefix_refl _)); eassumption.
Qed.

(** Everything [run] changes after the body of a ["plugin"] run lies
    in the workspace. *)
Lemma run_after_plugin_body w self fs0 :
  item_type self = "plugin" ->
  same_outside (mkdtemp_path w)
    (fs (snd (run_body w self (start fs0))))
    (fs (snd (run w self (start fs0)))).
Proof.
  intros Hk. unfold run, try_finally, try_except.
  assert (Htd : temp_dir (snd (run_body w self (start fs0))) = None \/
                temp_dir (snd (run_body w self (start fs0))) =
                  Some (mkdtemp_path w)).
  { unfold run_body. rewrite Hk.
    change (String.eqb "plugin" "plugin") with true. cbv iota.
    destruct (run_plugin w self _ _ (start fs0)) as [r s'] eqn:Hrun.
    destruct (run_plugin_workspace _ _ _ _ _ _ _ Hrun) as [[H _] | [H _]];
      simpl; auto. }
  destruct (run_body w self (start fs0)) as [[[]|e] s1];
    cbv beta iota delta [fst snd] in Htd |- *.
  - pose proof (cleanup_outside w s1 (mkdtemp_path w) Htd) as Hc.
    destruct (cleanup w s1) as [[[]|e] s2]; exact Hc.
  - rewrite on_error_eq.
    match goal with |- context [cleanup w ?s] =>
      pose proof (cleanup_outside w s (mkdtemp_path w) Htd) as Hc;
      destruct (cleanup w s) as [[[]|e'] s2]; exact Hc end.
Qed.

(** Name the workspace and compute the staged file system from the
    calls of the current path. *)
Ltac name_workspace :=
  try match goal with
      | H : mkdtemp ?w _ = (Ok ?p, _) |- _ =>
          let Hp := fresh "Hp" in
          destruct (mkdtemp_ok _ _ _ _ H) as (Hp & _); subst p
      end.

Ltac compute_staged :=
  unfold staged, staging; cbv zeta;
  repeat match goal with
    | H : download_repository_zip _ _ _ = Some _ |- _ => rewrite H
    end;
  repeat match goal with
    | H : ?f ?x = (_, _) |- context [?f ?x] => rewrite H; cbn [fst snd]
    end.

Ltac at_path q Hq1 Hq2 :=
  repeat match goal with
    | H : same_outside (mkdtemp_path _) _ _ |- _ =>
        pose proof (H q Hq1); clear H
    | H : rmtree ?t _ = _ |- _ =>
        pose proof (rmtree_outside t t (is_prefix_refl t) _ _ _ H q
                      (comparable_under _ t q (is_prefix_app _ _) Hq2));
        clear H
    | H : copytree _ ?t _ = _ |- _ =>
        pose proof (copytree_outside _ t _ _ _ H q
                      (comparable_under _ t q (is_prefix_app _ _) Hq2));
        clear H
    end.

Lemma run_plugin_effects w self fs0 r s' :
  run_plugin w self (login (owner (item_data self))) (name (item_data self))
    (start fs0) = (r, s') ->
  (no_slash (name (item_data self)) = true ->
   forall q,
     comparable (mkdtemp_path w) q = false ->
     comparable (plugins_dir self) q = false ->
     lookup (fs s') q = lookup fs0 q) /\
  (forall msg,
     In (true, msg) (finished_of (trace s')) ->
     comparable (mkdtemp_path w) (install_path self) = false ->
     exists d es,
       find_plugin_root (staged w self fs0) (mkdtemp_path w) = Some d /\
       lookup (staged w self fs0) d = Some (Dir es) /\
       lookup (fs s') (pjoin (plugins_dir self) (plugin_name (pname d)))
         = Some (Dir es)).
Proof.
  intros H. exec_in H.
  all: split;
    [ intros Hns q Hq1 Hq2; unfold plugins_dir in Hq2;
      pose proof (zip_name_plain _ Hns) as Hplain;
      confine (mkdtemp_path w); plain_opens Hplain;
      confine (mkdtemp_path w); at_path q Hq1 Hq2; congruence
    | simpl; intros msg Hin Hq;
      repeat match goal with
        | H : _ \/ _ |- _ => destruct H
        | H : False |- _ => destruct H
        | H : (_, _) = (_, _) |- _ => try discriminate H; clear H
        end ].
  all: try match goal with
           | H : falsy_bytes None = false |- _ => discriminate H
           end.
  all: name_workspace.
  all: match goal with
       | H : find_plugin_root _ _ = Some ?d |- _ =>
           exists d; pose proof (find_plugin_root_under _ _ _ H) as Hunder;
           assert (Hapart : comparable
                     (pjoin (plugins_dir self) (plugin_name (pname d))) d = false)
             by (rewrite comparable_sym;
                 apply comparable_under with (mkdtemp_path w); [exact Hunder|];
                 rewrite comparable_sym;
                 apply comparable_under with (install_path self);
                   [unfold plugins_dir, pjoin; rewrite <- app_assoc;
                    apply is_prefix_app
                   |now rewrite comparable_sym])
       end.
  all: match goal with
       | H : copytree _ _ _ = (Ok ?a, _) |- _ =>
           destruct a;
           destruct (copytree_copies _ _ _ _ H) as (_ & es & Hsrc & Hdst)
       end.
  all: exists es.
  all: repeat split; [compute_staged; assumption | | exact Hdst].
  all: compute_staged.
  all: try exact Hsrc.
  all: match goal with
       | H : rmtree ?t ?a = (_, ?b) |- lookup _ ?d = _ =>
           rewrite <- (rmtree_outside t t (is_prefix_refl t) _ _ _ H d Hapart)
       end; exact Hsrc.
Qed.

Lemma run_body_plugin w self fs0 :
  item_type self = "plugin" ->
  run_body w self (start fs0) =
  run_plugin w self (login (owner (item_data self))) (name (item_data self))
    (start fs0).
Proof.
  intros Hk. unfold run_body. now rewrite Hk.
Qed.

(** X9. A ["plugin"] run that reports success, with the install root
    and the workspace lying apart, has copied the located plugin
    directory: the install target
    [{install_path}/plugins/{plugin_name}] lists after the run exactly
    what the directory returned by [find_plugin_root] listed in the
    extracted archive, so nothing of an earlier installation under
    that name is left. *)
Theorem successful_install_copies_plugin w self fs0 msg :
  item_type self = "plugin" ->
  finished_of (trace (snd (run w self (start fs0)))) = [(true, msg)] ->
  comparable (mkdtemp_path w) (install_path self) = false ->
  exists d es,
    find_plugin_root (staged w self fs0) (mkdtemp_path w) = Some d /\
    lookup (staged w self fs0) d = Some (Dir es) /\
    lookup (fs (snd (run w self (start fs0))))
           (pjoin (plugins_dir self) (plugin_name (pname d))) = Some (Dir es).
Proof.
  intros Hk Hfin Hq.
  pose proof (run_after_plugin_body w self fs0 Hk) as Hafter.
  destruct (run_decompose w self fs0) as (_ & evs_c & Ht & Hc).
  rewrite Ht in Hfin. clear Ht.
  assert (Hqf : finished_of evs_c = [])
    by (destruct Hc as [-> | (lvl & m & ->)]; reflexivity).
  rewrite !finished_of_app, Hqf, app_nil_r in Hfin.
  rewrite (run_body_plugin w self fs0 Hk) in Hfin, Hafter.
  destruct (run_plugin w self _ _ (start fs0)) as [r s1] eqn:Hrun.
  destruct (run_plugin_signals _ _ _ _ _ _ _ Hrun) as (evs & Hevs & _ & _ & _ & Hf).
  destruct (run_plugin_effects _ _ _ _ _ Hrun) as [_ Hcopy].
  simpl in Hfin, Hafter, Hevs.
  assert (Hin : In (true, msg) (finished_of (trace s1))).
  { destruct r as [[]|e]; simpl in Hfin.
    - rewrite app_nil_r in Hfin. rewrite Hfin. now left.
    - rewrite Hevs, Hf in Hfin. discriminate. }
  destruct (Hcopy msg Hin Hq) as (d & es & Hd & Hes & Htarget).
  exists d, es. repeat split; try assumption.
  rewrite Hafter; [exact Htarget|].
  rewrite comparable_sym.
  apply comparable_under with (install_path self).
  - unfold plugins_dir, pjoin. rewrite <- app_assoc. apply is_prefix_app.
  - now rewrite comparable_sym.
Qed.

Lemma successful_install_copies_plugin_witness :
  finished_of
    (trace (snd (run (a_world repo_archive "k3x9q_ab") (a_worker "plugin")
                     (start installed_disk)))) =
    [(true, "y installed successfully!")] /\
  exists d es,
    find_plugin_root
      (staged (a_world repo_archive "k3x9q_ab") (a_worker "plugin")
              installed_disk)
      ["tmp"; "koreader_store_k3x9q_ab"] = Some d /\
    lookup
      (fs (snd (run (a_world repo_archive "k3x9q_ab") (a_worker "plugin")
                    (start installed_disk))))
      (pjoin ["koreader"; "plugins"] (plugin_name (pname d))) = Some (Dir es).
Proof.
  split; [reflexivity|].
  destruct (successful_install_copies_plugin
              (a_world repo_archive "k3x9q_ab") (a_worker "plugin")
              installed_disk "y installed successfully!"
              eq_refl eq_refl eq_refl)
    as (d & es & Hd & _ & Ht).
  exists d, es. now split.
Defined.

(** X10. A ["plugin"] run for a repository name without a slash
    changes nothing outside the workspace and [{install_path}/plugins]:
    every path that lies apart from both resolves after the run to
    what it resolved to before, whether the run succeeds or fails.
    (With a slash, [temp_dir / f"{repo}.zip"] can designate a file
    elsewhere.) *)
Theorem plugin_run_confined w self fs0 q :
  item_type self = "plugin" ->
  no_slash (name (item_data self)) = true ->
  comparable (mkdtemp_path w) q = false ->
  comparable (plugins_dir self) q = false ->
  lookup (fs (snd (run w self (start fs0)))) q = lookup fs0 q.
Proof.
  intros Hk Hns Hq1 Hq2.
  rewrite (run_after_plugin_body w self fs0 Hk q Hq1).
  rewrite (run_body_plugin w self fs0 Hk).
  destruct (run_plugin w self _ _ (start fs0)) as [r s1] eqn:Hrun.
  exact (proj1 (run_plugin_effects _ _ _ _ _ Hrun) Hns q Hq1 Hq2).
Qed.

Lemma plugin_run_confined_witness :
  let disk :=
    Dir [("tmp", Dir []);
         ("koreader", Dir [("settings.reader.lua", File "return {}")])] in
  lookup
    (fs (snd (run (a_world repo_archive "k3x9q_ab") (a_worker "plugin")
                  (start disk))))
    ["koreader"; "settings.reader.lua"] = Some (File "return {}").
Proof.
  exact (plugin_run_confined
           (a_world repo_archive "k3x9q_ab") (a_worker "plugin")
           (Dir [("tmp", Dir []);
                 ("koreader", Dir [("settings.reader.lua", File "return {}")])])
           ["koreader"; "settings.reader.lua"] eq_refl eq_refl eq_refl eq_refl).
Defined.

(** ** What a patch run changes *)

Lemma write_ok_lookup p data fs0 fs1 :
  write p data fs0 = (Ok tt, fs1) -> lookup fs1 p = Some (File data).
Proof.
  unfold write. intros H.
  destruct (lookup fs0 p) as [[|]|]; try discriminate.
  destruct (put p (File data) fs0) eqn:Hp; inversion H; subst.
  exact (put_lookup _ _ _ _ Hp).
Qed.

Lemma patch_calls_not_mkdtemp evs :
  forallb is_patch_call evs = true -> called Mkdtemp evs = false.
Proof.
  induction evs as [|ev evs IH]; [reflexivity|]. simpl.
  intros H. apply andb_true_iff in H as [Hev Hevs].
  destruct ev as [| | |[]]; try discriminate; simpl; auto.
Qed.

(** The loop over the patches makes one write per entry when it
    returns.  When every patch name is a plain file name it writes
    only at the patch files themselves, and when it returns a name of
    the list holds the text of its last entry. *)
Lemma install_patches_effects w dir ps : forall i s r s',
  install_patches w dir i ps s = (r, s') ->
  exists evs fs',
    s' = {| fs := fs'; trace := trace s ++ evs; temp_dir := temp_dir s |} /\
    forallb is_patch_call evs = true /\
    (r = Ok tt -> writes_of evs = List.length ps) /\
    ((forall p, In p ps -> plain_name (patch_name p) = true) ->
     (forall q,
        (forall p, In p ps -> comparable (pjoin dir (patch_name p)) q = false) ->
        lookup fs' q = lookup (fs s) q) /\
     (r = Ok tt ->
      forall n,
        lookup fs' (pjoin dir n) =
        match final_text w n ps with
        | Some t => Some (File t)
        | None => lookup (fs s) (pjoin dir n)
        end)).
Proof.
  induction ps as [|p ps IH]; intros i [fs0 tr td] r s' H.
  - inversion H; subst. exists [], fs0. simpl. rewrite app_nil_r.
    repeat split; auto.
  - revert H. simpl. exec; intros H.
    all: try solve [ inversion H; subst; rewrite <- ?app_assoc;
      do 2 eexists; (split; [reflexivity|]); (split; [reflexivity|]);
      (split; [discriminate|]); intros Hpl; (split; [|discriminate]);
      intros q Hq;
      pose proof (Hq p (or_introl eq_refl)) as Hp;
      plain_opens (Hpl p (or_introl eq_refl));
      repeat match goal with
        | H : open_w ?t _ = _ |- _ =>
            rewrite <- (open_w_outside t t (is_prefix_refl t) _ _ _ H q Hp)
              in *; clear H
        | H : write ?t _ _ = _ |- _ =>
            rewrite <- (write_outside t t (is_prefix_refl t) _ _ _ _ H q Hp)
              in *; clear H
        end; reflexivity ].
    apply IH in H. destruct H as (evs & fs' & -> & Hevs & Hcount & Hrest).
    simpl in Hrest |- *. rewrite <- ?app_assoc.
    do 2 eexists. split; [reflexivity|]. split; [exact Hevs|].
    split.
    + intros ->. unfold writes_of in *. simpl. now rewrite (Hcount eq_refl).
    + intros Hpl.
      destruct (Hrest (fun q Hq => Hpl q (or_intror Hq))) as [Hframe Hfiles].
      plain_opens (Hpl p (or_introl eq_refl)).
      match goal with
      | Ho : open_w _ fs0 = (_, ?n1), Hw : write _ _ ?n1 = (Ok ?a, ?n2) |- _ =>
          destruct a;
          pose proof (write_ok_lookup _ _ _ _ Hw) as Hfile;
          assert (Hstep : forall q,
                    comparable (pjoin dir (patch_name p)) q = false ->
                    lookup n2 q = lookup fs0 q)
            by (intros q Hp;
                rewrite (write_outside _ _ (is_prefix_refl _) _ _ _ _ Hw q Hp);
                exact (open_w_outside _ _ (is_prefix_refl _) _ _ _ Ho q Hp))
      end.
      split.
      * intros q Hq. rewrite Hframe by (intros p' Hp'; apply Hq; now right).
        apply Hstep. apply Hq. now left.
      * intros -> c. rewrite (Hfiles eq_refl c).
        destruct (final_text w c ps) as [t|]; [reflexivity|].
        destruct (String.eqb (patch_name p) c) eqn:E.
        -- apply String.eqb_eq in E. subst c. exact Hfile.
        -- apply Hstep. now apply comparable_siblings.
Qed.

Lemma run_patch_effects w self o rp fs0 r s1 :
  run_patch w self o rp (start fs0) = (r, s1) ->
  temp_dir s1 = None /\
  called Mkdtemp (trace s1) = false /\
  called RmtreeTemp (trace s1) = false /\
  ((forall ps p, get_patch_files w o rp = Some ps -> In p ps ->
                 plain_name (patch_name p) = true) ->
   same_outside (patches_dir self) fs0 (fs s1)) /\
  (forall msg,
     In (true, msg) (finished_of (trace s1)) ->
     exists ps,
       get_patch_files w o rp = Some ps /\ ps <> [] /\
       msg = str_of_nat (List.length ps) ++ " patch(es) installed!" /\
       writes_of (trace s1) = List.length ps /\
       ((forall p, In p ps -> plain_name (patch_name p) = true) ->
        forall p, In p ps ->
          exists t,
            final_text w (patch_name p) ps = Some t /\
            lookup (fs s1) (pjoin (patches_dir self) (patch_name p))
              = Some (File t))).
Proof.
  intros H. revert H. exec; intros H.
  all: try match goal with
       | Hl : install_patches _ _ _ _ _ = _ |- _ =>
           apply install_patches_effects in Hl;
           destruct Hl as (evs & fs' & -> & Hevs & Hcount & Hrest)
       end.
  all: inversion H; subst; clear H;
    cbv beta iota zeta delta [fs trace temp_dir] in *.
  all: assert (Hmk : forall n r0,
                 path_mkdir_exist_ok (pjoin (install_path self) "patches") fs0
                   = (r0, n) ->
                 same_outside (patches_dir self) fs0 n)
    by (intros n' r0 Hn;
        exact (path_mkdir_exist_ok_outside _ _ (is_prefix_refl _) _ _ _ Hn)).
  all: split; [reflexivity|].
  all: try (pose proof (patch_calls_not_mkdtemp _ Hevs) as Hnm;
            pose proof (patch_calls_not_cleanup _ Hevs) as Hnc;
            unfold called in Hnm, Hnc).
  all: split;
    [ unfold called; simpl; rewrite ?existsb_app, ?Hnm; reflexivity |].
  all: split;
    [ unfold called; simpl; rewrite ?existsb_app, ?Hnc; reflexivity |].
  all: split;
    [ intros Hpl; try apply same_outside_refl; try (eapply Hmk; eassumption) |].
  all: try (eapply same_outside_trans; [eapply Hmk; eassumption|];
            intros q Hq;
            destruct (Hrest (fun p Hp => Hpl _ p eq_refl Hp)) as [Hframe _];
            apply Hframe; intros p0 _;
            apply comparable_under with (patches_dir self);
              [apply is_prefix_app | exact Hq]).
  all: simpl; rewrite ?finished_of_app, ?(patch_calls_finished _ Hevs); simpl;
    intros msg Hin;
    repeat match goal with
      | H : _ \/ _ |- _ => destruct H
      | H : False |- _ => destruct H
      | H : (_, _) = (_, _) |- _ => try discriminate H; inversion H; clear H
      end.
  subst msg.
  match goal with Hok : Ok ?a = Ok tt -> _ |- _ => destruct a end.
  match goal with
  | |- exists ps, Some ?l = Some ps /\ _ => exists l
  end.
  split; [reflexivity|]. split; [discriminate|].
  split; [reflexivity|]. split.
  - unfold writes_of in *. simpl.
    rewrite filter_app, length_app, (Hcount eq_refl). simpl. lia.
  - intros Hpl q Hq. destruct (Hrest Hpl) as [_ Hfiles].
    destruct (final_text_in w q _ Hq) as [t Ht].
    exists t. split; [exact Ht|].
    unfold patches_dir. now rewrite (Hfiles eq_refl), Ht.
Qed.

(** A ["patch"] run never binds [temp_dir], so the [finally] block
    adds nothing: the final state is the one the [try] statement
    left. *)
Lemma run_patch_final w self fs0 :
  item_type self = "patch" ->
  let body := run_patch w self (login (owner (item_data self)))
                (name (item_data self)) (start fs0) in
  snd (run w self (start fs0)) =
    {| fs := fs (snd body);
       trace := trace (snd body) ++ handler_events (fst body);
       temp_dir := None |}.
Proof.
  intros Hk body. unfold run, try_finally, try_except, run_body.
  rewrite Hk. change (String.eqb "patch" "plugin") with false.
  change (String.eqb "patch" "patch") with true. cbv iota.
  fold body. destruct body as [r [fs1 tr1 td1]] eqn:Hb.
  destruct (run_patch_effects _ _ _ _ _ _ _ Hb) as (Htd & _).
  simpl in Htd. subst td1.
  destruct r as [[]|e]; cbv beta iota delta [fst snd handler_events].
  - unfold cleanup, get_temp_dir, get_fs, bind, ret. simpl.
    now rewrite app_nil_r.
  - rewrite on_error_eq. unfold cleanup, get_temp_dir, get_fs, bind, ret.
    reflexivity.
Qed.

(** X11. A ["patch"] run creates no workspace: [tempfile.mkdtemp] is
    never called, [temp_dir] is unbound at the end, and the [finally]
    block does not call [shutil.rmtree]. *)
Theorem patch_run_without_workspace w self fs0 :
  item_type self = "patch" ->
  temp_dir (snd (run w self (start fs0))) = None /\
  called Mkdtemp (trace (snd (run w self (start fs0)))) = false /\
  called RmtreeTemp (trace (snd (run w self (start fs0)))) = false.
Proof.
  intros Hk. rewrite (run_patch_final w self fs0 Hk). simpl.
  destruct (run_patch w self _ _ (start fs0)) as [r s1] eqn:Hb.
  destruct (run_patch_effects _ _ _ _ _ _ _ Hb) as (_ & Hm & Hr & _).
  simpl. rewrite !called_app, Hm, Hr.
  now destruct r.
Qed.

Lemma patch_run_without_workspace_witness :
  temp_dir (snd (run (a_world repo_archive "k3x9q_ab") (a_worker "patch")
                     (start a_disk))) = None /\
  called Mkdtemp
    (trace (snd (run (a_world repo_archive "k3x9q_ab") (a_worker "patch")
                     (start a_disk)))) = false.
Proof.
  destruct (patch_run_without_workspace
              (a_world repo_archive "k3x9q_ab") (a_worker "patch") a_disk
              eq_refl) as (H1 & H2 & _).
  now split.
Defined.

(** X12. A ["patch"] run whose listed patch names are all plain file
    names (no slash, and not the empty name, [.] or [..]) changes
    nothing outside [{install_path}/patches]: every path that lies
    apart from it resolves after the run to what it resolved to
    before, whether the run succeeds or fails.  (A name with a slash
    can designate a file elsewhere.) *)
Theorem patch_run_confined w self fs0 q :
  item_type self = "patch" ->
  (forall ps p,
     get_patch_files w (login (owner (item_data self))) (name (item_data self))
       = Some ps ->
     In p ps -> plain_name (patch_name p) = true) ->
  comparable (patches_dir self) q = false ->
  lookup (fs (snd (run w self (start fs0)))) q = lookup fs0 q.
Proof.
  intros Hk Hpl Hq. rewrite (run_patch_final w self fs0 Hk). simpl.
  destruct (run_patch w self _ _ (start fs0)) as [r s1] eqn:Hb.
  destruct (run_patch_effects _ _ _ _ _ _ _ Hb) as (_ & _ & _ & Hout & _).
  exact (Hout Hpl q Hq).
Qed.

Lemma patch_run_confined_witness :
  lookup
    (fs (snd (run (a_world repo_archive "k3x9q_ab") (a_worker "patch")
                  (start installed_disk))))
    ["koreader"; "plugins"; "coolplugin.koplugin"; "old.lua"] =
    Some (File "-- old").
Proof.
  assert (Hpl : forall ps p,
            get_patch_files (a_world repo_archive "k3x9q_ab")
              (login (owner (item_data (a_worker "patch"))))
              (name (item_data (a_worker "patch"))) = Some ps ->
            In p ps -> plain_name (patch_name p) = true).
  { intros ps p Hps. injection Hps as <-.
    intros [<- | [<- | []]]; reflexivity. }
  exact (patch_run_confined
           (a_world repo_archive "k3x9q_ab") (a_worker "patch") installed_disk
           ["koreader"; "plugins"; "coolplugin.koplugin"; "old.lua"]
           eq_refl Hpl eq_refl).
Defined.

(** X13. A ["patch"] run reports success only when the patch list was
    non-empty and every entry was fetched and written: the message is
    ["{n} patch(es) installed!"] for the [n] entries of the list and
    [n] writes were made.  When moreover every patch name is a plain
    file name, every patch name designates after the run a regular
    file under [{install_path}/patches], holding the fetched text of
    the last entry of that name. *)
Theorem patch_success_means_written w self fs0 msg :
  item_type self = "patch" ->
  finished_of (trace (snd (run w self (start fs0)))) = [(true, msg)] ->
  exists ps,
    get_patch_files w (login (owner (item_data self))) (name (item_data self))
      = Some ps /\
    ps <> [] /\
    msg = str_of_nat (List.length ps) ++ " patch(es) installed!" /\
    writes_of (trace (snd (run w self (start fs0)))) = List.length ps /\
    ((forall p, In p ps -> plain_name (patch_name p) = true) ->
     forall p, In p ps ->
       exists t,
         final_text w (patch_name p) ps = Some t /\
         lookup (fs (snd (run w self (start fs0))))
                (pjoin (patches_dir self) (patch_name p)) = Some (File t)).
Proof.
  intros Hk. rewrite (run_patch_final w self fs0 Hk). simpl.
  destruct (run_patch w self _ _ (start fs0)) as [r s1] eqn:Hb.
  destruct (run_patch_signals _ _ _ _ _ _ _ Hb) as (evs & Hevs & _ & _ & Hf).
  destruct (run_patch_effects _ _ _ _ _ _ _ Hb) as (_ & _ & _ & _ & Hok).
  simpl in Hevs |- *. rewrite finished_of_app.
  destruct r as [[]|e]; simpl.
  - rewrite !app_nil_r. intros Hfin.
    apply Hok. rewrite Hfin. now left.
  - rewrite Hevs, Hf. discriminate.
Qed.

Lemma patch_success_means_written_witness :
  finished_of
    (trace (snd (run (a_world repo_archive "k3x9q_ab") (a_worker "patch")
                     (start a_disk)))) = [(true, "2 patch(es) installed!")] /\
  writes_of
    (trace (snd (run (a_world repo_archive "k3x9q_ab") (a_worker "patch")
                     (start a_disk)))) = 2 /\
  exists t,
    lookup (fs (snd (run (a_world repo_archive "k3x9q_ab") (a_worker "patch")
                         (start a_disk))))
           ["koreader"; "patches"; "9-ui.lua"] = Some (File t).
Proof.
  split; [reflexivity|].
  destruct (patch_success_means_written
              (a_world repo_archive "k3x9q_ab") (a_worker "patch") a_disk
              "2 patch(es) installed!" eq_refl eq_refl)
    as (ps & Hps & _ & _ & Hw & Hfiles).
  injection Hps as <-. split; [exact Hw|].
  assert (Hpl : forall p, In p two_patches -> plain_name (patch_name p) = true)
    by (intros p [<- | [<- | []]]; reflexivity).
  destruct (Hfiles Hpl
              {| patch_name := "9-ui.lua"; download_url := "https://h/9-ui.lua" |}
              (or_intror (or_introl eq_refl))) as (t & _ & Ht).
  exists t. exact Ht.
Defined.
(** ** A failed plugin run and the install target *)

(** The calls of lines 103-105 are made only for an archive that was
    fetched, whose extraction raised nothing, and in whose extraction
    [find_plugin_root] found a plugin root. *)
Lemma commit_needs_plugin_root w self fs0 r s' :
  run_plugin w self (login (owner (item_data self))) (name (item_data self))
    (start fs0) = (r, s') ->
  called RmtreeTarget (trace s') || called Copytree (trace s') = true ->
  falsy_bytes (download_repository_zip w (login (owner (item_data self)))
                 (name (item_data self))) = false /\
  fault w ExtractAll = None /\
  (exists n, staging w self fs0 = (Ok tt, n)) /\
  exists d, find_plugin_root (staged w self fs0) (mkdtemp_path w) = Some d.
Proof.
  intros H. exec_in H.
  all: intros Hc; try discriminate Hc.
  all: try match goal with
           | H : falsy_bytes None = false |- _ => discriminate H
           end.
  all: name_workspace.
  all: split; [congruence|]. all: split; [reflexivity|].
  all: split; [|eexists; compute_staged; eassumption].
  all: eexists; unfold staging; compute_staged;
    match goal with |- (Ok ?a, _) = _ => destruct a end; reflexivity.
Qed.

(** Neither the handler nor the [finally] block calls
    [shutil.rmtree(target)] or [shutil.copytree], and neither emits
    [progress]. *)
Lemma run_commit_in_body w self fs0 :
  called RmtreeTarget (trace (snd (run w self (start fs0)))) =
    called RmtreeTarget (trace (snd (run_body w self (start fs0)))) /\
  called Copytree (trace (snd (run w self (start fs0)))) =
    called Copytree (trace (snd (run_body w self (start fs0)))) /\
  progress_of (trace (snd (run w self (start fs0)))) =
    progress_of (trace (snd (run_body w self (start fs0)))) /\
  finished_of (trace (snd (run w self (start fs0)))) =
    (finished_of (trace (snd (run_body w self (start fs0)))) ++
     finished_of (handler_events (fst (run_body w self (start fs0)))))%list.
Proof.
  destruct (run_decompose w self fs0) as (_ & evs_c & -> & Hc).
  rewrite !called_app, !progress_of_app, !finished_of_app.
  assert (Hh : called RmtreeTarget
                 (handler_events (fst (run_body w self (start fs0)))) = false /\
               called Copytree
                 (handler_events (fst (run_body w self (start fs0)))) = false /\
               progress_of
                 (handler_events (fst (run_body w self (start fs0)))) = [])
    by (destruct (fst (run_body w self (start fs0))); repeat split).
  destruct Hh as (-> & -> & ->).
  destruct Hc as [-> | (lvl & msg & ->)]; simpl;
    rewrite ?orb_false_r, ?app_nil_r; repeat split.
Qed.

(** C6, as the code has it.  Take a ["plugin"] run for a repository
    name without a slash, and a path [q] that exists before the run
    and does not contain the temporary location (a pre-existing
    install target, whatever the plugin name).  If the run fails
    before the copy step, that is
    - the fetch answers nothing, or
    - the extraction fails: [zipfile] is refused from outside, or
      [extractall] raises on the archive that was written, or
    - [find_plugin_root] finds no plugin root in what the archive
      extracts to, or
    - for whatever reason the run does not get as far as announcing
      ["Installing..."] (any call before line 100 raised),
    then [q] resolves after the run to what it resolved to before, and
    neither [shutil.rmtree(target)] nor [shutil.copytree] was called. *)
Theorem failed_run_leaves_target w self fs0 q :
  item_type self = "plugin" ->
  no_slash (name (item_data self)) = true ->
  exists_ fs0 q = true ->
  is_prefix q (mkdtemp_path w) = false ->
  falsy_bytes (download_repository_zip w (login (owner (item_data self)))
                 (name (item_data self))) = true \/
  fault w ExtractAll <> None \/
  (exists e, fst (staging w self fs0) = Raise e) \/
  find_plugin_root (staged w self fs0) (mkdtemp_path w) = None \/
  name_in "Installing..."
    (progress_of (trace (snd (run w self (start fs0))))) = false ->
  lookup (fs (snd (run w self (start fs0)))) q = lookup fs0 q /\
  called RmtreeTarget (trace (snd (run w self (start fs0)))) = false /\
  called Copytree (trace (snd (run w self (start fs0)))) = false.
Proof.
  intros Hk Hns Hex Hq Hfail.
  destruct (run_commit_in_body w self fs0) as (Hr & Hc & Hp & _).
  pose proof (run_after_plugin_body w self fs0 Hk) as Hafter.
  pose proof (run_plugin_name_taken w self fs0 Hk) as Htaken.
  rewrite Hr, Hc. rewrite Hp in Hfail. clear Hr Hc Hp.
  rewrite (run_body_plugin w self fs0 Hk) in *.
  destruct (run_plugin w self _ _ (start fs0)) as [r s1] eqn:Hrun.
  destruct (run_plugin_uncommitted _ _ _ _ _ _ _ Hns Hrun) as [Hframe Hcommit].
  pose proof (commit_needs_plugin_root _ _ _ _ _ Hrun) as Hroot.
  cbv beta iota delta [fst snd] in *.
  assert (Hnone : called RmtreeTarget (trace s1)
                  || called Copytree (trace s1) = false).
  { destruct (called RmtreeTarget (trace s1) || called Copytree (trace s1));
      [exfalso|reflexivity].
    destruct (Hcommit eq_refl) as (Hinst & _).
    destruct (Hroot eq_refl) as (Hbytes & Hzip & [n Hextract] & d & Hd).
    rewrite Hextract in Hfail.
    destruct Hfail as [H | [H | [[e H] | [H | H]]]];
      try discriminate H; congruence. }
  split.
  - destruct (is_prefix (mkdtemp_path w) q) eqn:Hin.
    + now rewrite (Htaken (exists_prefix _ _ _ Hin Hex)).
    + assert (Hapart : comparable (mkdtemp_path w) q = false)
        by (unfold comparable; now rewrite Hin, Hq).
      rewrite (Hafter q Hapart). exact (Hframe Hnone q Hapart).
  - now apply orb_false_iff in Hnone.
Qed.

Lemma failed_run_leaves_target_witness :
  let w := a_world readme_archive "k3x9q_ab" in
  let q := ["koreader"; "plugins"; "coolplugin.koplugin"] in
  find_plugin_root (staged w (a_worker "plugin") installed_disk)
    (mkdtemp_path w) = None /\
  lookup (fs (snd (run w (a_worker "plugin") (start installed_disk)))) q =
    Some (Dir [("main.lua", File "-- old"); ("_meta.lua", File "-- old");
               ("old.lua", File "-- old")]) /\
  called RmtreeTarget
    (trace (snd (run w (a_worker "plugin") (start installed_disk)))) = false.
Proof.
  split; [reflexivity|].
  destruct (failed_run_leaves_target
              (a_world readme_archive "k3x9q_ab") (a_worker "plugin")
              installed_disk ["koreader"; "plugins"; "coolplugin.koplugin"]
              eq_refl eq_refl eq_refl eq_refl
              (or_intror (or_intror (or_intror (or_introl eq_refl)))))
    as (Hq & Hr & _).
  split; [exact Hq | exact Hr].
Defined.

(** C6, the claim at a concrete run.  With a slash in the repository
    name, [temp_dir / f"{repo}.zip"] can lie outside the workspace:
    here the locator finds no plugin root, neither
    [shutil.rmtree(target)] nor [shutil.copytree] is called, and yet
    the archive has been written into the plugin that was installed
    before the run, where the [finally] block leaves it. *)
Lemma climbing_name_writes_outside :
  let s := snd (run (a_world readme_archive "k3x9q_ab") climbing_worker
                    (start installed_disk)) in
  finished_of (trace s) =
    [(false, "No valid plugin structure found (main.lua/_meta.lua missing)")] /\
  called RmtreeTarget (trace s) || called Copytree (trace s) = false /\
  lookup installed_disk
    ["koreader"; "plugins"; "coolplugin.koplugin"; "x.zip"] = None /\
  lookup (fs s) ["koreader"; "plugins"; "coolplugin.koplugin"; "x.zip"] =
    Some (File "PK").
Proof. repeat split. Qed.

(** ** Patch names that are not plain *)

(** A patch name that climbs is written outside [patches], and the
    run reports success. *)
Lemma climbing_patch_name :
  let w := a_patch_world [ {| patch_name := "../outside.lua";
                              download_url := "https://h/outside.lua" |} ] in
  let s := snd (run w (a_worker "patch") (start a_disk)) in
  finished_of (trace s) = [(true, "1 patch(es) installed!")] /\
  lookup (fs s) ["koreader"; "patches"] = Some (Dir []) /\
  lookup (fs s) ["koreader"; "outside.lua"] =
    Some (File "-- https://h/outside.lua").
Proof. repeat split. Qed.

(** A patch name with a directory part that does not exist, and the
    empty name, make [open] raise: the run fails. *)
Lemma nested_patch_name_fails :
  finished_of
    (trace (snd (run (a_patch_world [ {| patch_name := "sub/x.lua";
                                         download_url := "https://h/x.lua" |} ])
                     (a_worker "patch") (start a_disk)))) =
    [(false, "Error: [Errno 2] No such file or directory: '/koreader/patches/sub/x.lua'")] /\
  finished_of
    (trace (snd (run (a_patch_world [ {| patch_name := "";
                                         download_url := "https://h/x.lua" |} ])
                     (a_worker "patch") (start a_disk)))) =
    [(false, "Error: [Errno 21] Is a directory: '/koreader/patches'")].
Proof. split; reflexivity. Qed.

(** A name listed twice ends with the text of the later entry. *)
Lemma later_entry_wins :
  let ps := [ {| patch_name := "2-fix.lua"; download_url := "https://h/old" |};
              {| patch_name := "2-fix.lua"; download_url := "https://h/new" |} ] in
  let s := snd (run (a_patch_world ps) (a_worker "patch") (start a_disk)) in
  finished_of (trace s) = [(true, "2 patch(es) installed!")] /\
  final_text (a_patch_world ps) "2-fix.lua" ps = Some "-- https://h/new" /\
  lookup (fs s) ["koreader"; "patches"; "2-fix.lua"] =
    Some (File "-- https://h/new").
Proof. repeat split. Qed.

(** ** [run] on the dictionary *)

(** When [item_data] holds both keys, [run] on the dictionary is [run]
    on the values read. *)
Lemma run_dict_typed w rw it s :
  read_item (raw_item_data rw) = Ok it ->
  run_dict w rw s = run w (worker_of rw it) s.
Proof.
  intros H. unfold run_dict, run, try_finally, try_except. now rewrite H.
Qed.

(** When a key is missing, line 62 or 63 raises [KeyError] inside the
    [try]: the handler logs it and emits the one outcome, whatever the
    kind. *)
Lemma run_dict_key_error w rw e fs0 :
  read_item (raw_item_data rw) = Raise e ->
  run_dict w rw (start fs0) =
    (Ok tt,
     {| fs := fs0;
        trace := [Log ERROR ("Error during installation: " ++ exn_str e);
                  Finished false ("Error: " ++ exn_str e)];
        temp_dir := None |}).
Proof.
  intros H. unfold run_dict, try_finally, try_except. rewrite H.
  rewrite on_error_eq. reflexivity.
Qed.

(** C10, the claim at a concrete run.  A worker of kind ["theme"]
    whose [item_data] has no ["owner"]: line 62 raises [KeyError]
    before the kind is looked at, and the run emits
    [finished(False, "Error: 'owner'")]. *)
Lemma missing_key_is_reported :
  raw_item_type ownerless_worker <> "plugin" /\
  raw_item_type ownerless_worker <> "patch" /\
  finished_of (trace (snd (run_dict silent_world ownerless_worker
                                    (start a_disk)))) =
    [(false, "Error: 'owner'")].
Proof.
  split; [discriminate|]. split; [discriminate|]. reflexivity.
Qed.

(** C10, as the code has it.  When [item_type] is neither ["plugin"]
    nor ["patch"]: if [item_data] holds ["owner"]["login"] and
    ["name"], [run] returns having done nothing at all, no call, no
    log line, no [progress] signal and no [finished] signal, and the
    file system is as it was; if a key is missing, [run] returns
    after the one outcome [(False, "Error: " + str(e))] for the
    [KeyError] [e] of lines 62-63, without a [progress] signal and
    with the file system as it was. *)
Theorem unknown_kind_silent_given_keys w rw fs0 :
  raw_item_type rw <> "plugin" ->
  raw_item_type rw <> "patch" ->
  (forall it,
     read_item (raw_item_data rw) = Ok it ->
     run_dict w rw (start fs0) = (Ok tt, start fs0) /\
     progress_of (trace (snd (run_dict w rw (start fs0)))) = [] /\
     finished_of (trace (snd (run_dict w rw (start fs0)))) = []) /\
  (forall e,
     read_item (raw_item_data rw) = Raise e ->
     fst (run_dict w rw (start fs0)) = Ok tt /\
     fs (snd (run_dict w rw (start fs0))) = fs0 /\
     progress_of (trace (snd (run_dict w rw (start fs0)))) = [] /\
     finished_of (trace (snd (run_dict w rw (start fs0)))) =
       [(false, "Error: " ++ exn_str e)]).
Proof.
  intros Hplugin Hpatch. split.
  - intros it Hit. rewrite (run_dict_typed w rw it _ Hit).
    exact (unknown_kind_is_silent w (worker_of rw it) fs0 Hplugin Hpatch).
  - intros e He. rewrite (run_dict_key_error w rw e fs0 He).
    repeat split.
Qed.

Lemma unknown_kind_silent_given_keys_witness :
  raw_item_type (a_raw_worker "theme") <> "plugin" /\
  raw_item_type (a_raw_worker "theme") <> "patch" /\
  run_dict silent_world (a_raw_worker "theme") (start a_disk) =
    (Ok tt, start a_disk).
Proof.
  assert (H1 : raw_item_type (a_raw_worker "theme") <> "plugin") by discriminate.
  assert (H2 : raw_item_type (a_raw_worker "theme") <> "patch") by discriminate.
  split; [exact H1|]. split; [exact H2|].
  exact (proj1 (proj1 (unknown_kind_silent_given_keys
                         silent_world (a_raw_worker "theme") a_disk H1 H2)
                      _ eq_refl)).
Defined.
